(** * claude-projects-sdk: the process channel and the conversation log reader

    A shallow embedding of [src/claude.ts] (class [Claude]), of
    [src/common/jsonl.ts] (class [JsonlFile]) and of [src/conversation.ts]
    (class [Conversation]), with the stream-message schema of
    [src/common/schemas.ts].

    Conventions.
    - A JavaScript string is a [string]; a file is the [string] of its bytes,
      so [String.length] is the size in bytes.
    - [JSON.parse], [JSON.stringify] and the zod validator of log records are
      platform or library code: they are Section variables.
    - Event emission, promise settlement and writes to the child's input are
      effects; each is an append to a log kept next to the object's fields. *)

From Stdlib Require Import String Ascii List ZArith Bool Lia.
From Stdlib Require Import Numbers.DecimalString.
Import ListNotations.
Local Open Scope string_scope.
Set Warnings "-register-all".

(** ** JSON values, as [JSON.parse] returns them *)

Inductive json : Type :=
| JNull
| JBool (b : bool)
| JNum (n : Z)
| JStr (s : string)
| JArr (items : list json)
| JObj (props : list (string * json)).

(** [obj[key]] on a parsed object: [None] is JavaScript's [undefined]. *)
Fixpoint prop (key : string) (props : list (string * json)) : option json :=
  match props with
  | [] => None
  | (k, v) :: rest => if String.eqb k key then Some v else prop key rest
  end.

(** An [Error] object; only its message is observed. *)
Record Error : Type := mkError { error_message : string }.

(** The characters [String.prototype.trim] removes, within ASCII. *)
Definition is_space (c : ascii) : bool :=
  match N_of_ascii c with
  | 9%N | 10%N | 11%N | 12%N | 13%N | 32%N => true
  | _ => false
  end.

(** [!line.trim()]: the line is empty once trimmed. *)
Fixpoint trim_is_empty (line : string) : bool :=
  match line with
  | EmptyString => true
  | String c rest => is_space c && trim_is_empty rest
  end.

(** ** zod combinators used by the stream-message schema *)

Module Zod.

Definition bind {A B} (o : option A) (k : A -> option B) : option B :=
  match o with Some a => k a | None => None end.

Definition string (v : json) : option String.string :=
  match v with JStr s => Some s | _ => None end.

(** [schema.optional()] applied to a property that may be absent. *)
Definition optional {A} (schema : json -> option A) (v : option json)
  : option (option A) :=
  match v with
  | None => Some None
  | Some x => bind (schema x) (fun a => Some (Some a))
  end.

(** A required property. *)
Definition required {A} (schema : json -> option A) (v : option json)
  : option A :=
  bind v schema.

Fixpoint all {A} (schema : json -> option A) (items : list json)
  : option (list A) :=
  match items with
  | [] => Some []
  | x :: rest =>
      bind (schema x) (fun a =>
      bind (all schema rest) (fun l => Some (a :: l)))
  end.

Definition array {A} (schema : json -> option A) (v : json)
  : option (list A) :=
  match v with JArr items => all schema items | _ => None end.

End Zod.

Notation "x <- e ;; k" := (Zod.bind e (fun x => k))
  (at level 61, e at next level, right associativity).

(** ** Stream messages ([ClaudeStreamMessageSchema] and its parts)

    The three object schemas are [passthrough()]: unknown keys are kept on the
    validated object.  No code of [Claude] reads them, and the records below
    keep the declared keys only. *)

Module Schemas.

Record StreamMessageContent : Type := {
  block_type : string;            (* type: z.string() *)
  block_text : option string      (* text: z.string().optional() *)
}.

(** [z.union([z.string(), z.array(StreamMessageContentSchema)])] *)
Inductive Content : Type :=
| ContentString (s : string)
| ContentArray (blocks : list StreamMessageContent).

Record StreamMessagePayload : Type := {
  role : option string;
  content : option Content
}.

Record ClaudeStreamMessage : Type := {
  type : string;
  subtype : option string;
  message : option StreamMessagePayload;
  session_id : option string;
  result_text : option string     (* result: z.string().optional() *)
}.

Definition StreamMessageContentSchema (v : json) : option StreamMessageContent :=
  match v with
  | JObj props =>
      t <- Zod.required Zod.string (prop "type" props) ;;
      x <- Zod.optional Zod.string (prop "text" props) ;;
      Some {| block_type := t; block_text := x |}
  | _ => None
  end.

Definition ContentSchema (v : json) : option Content :=
  match Zod.string v with
  | Some s => Some (ContentString s)
  | None =>
      blocks <- Zod.array StreamMessageContentSchema v ;;
      Some (ContentArray blocks)
  end.

Definition StreamMessagePayloadSchema (v : json) : option StreamMessagePayload :=
  match v with
  | JObj props =>
      r <- Zod.optional Zod.string (prop "role" props) ;;
      c <- Zod.optional ContentSchema (prop "content" props) ;;
      Some {| role := r; content := c |}
  | _ => None
  end.

(** [ClaudeStreamMessageSchema.safeParse]: [Some data] on success. *)
Definition ClaudeStreamMessageSchema (v : json) : option ClaudeStreamMessage :=
  match v with
  | JObj props =>
      t <- Zod.required Zod.string (prop "type" props) ;;
      st <- Zod.optional Zod.string (prop "subtype" props) ;;
      m <- Zod.optional StreamMessagePayloadSchema (prop "message" props) ;;
      sid <- Zod.optional Zod.string (prop "session_id" props) ;;
      r <- Zod.optional Zod.string (prop "result" props) ;;
      Some {| type := t; subtype := st; message := m;
              session_id := sid; result_text := r |}
  | _ => None
  end.

(** [ClaudeResponse] *)
Record ClaudeResponse : Type := {
  sessionId : string;
  messages : list ClaudeStreamMessage;
  text : string;
  result : ClaudeStreamMessage
}.

End Schemas.

(** ** The process channel: class [Claude] of [src/claude.ts] *)

Module Claude.
Import Schemas.

(** [PendingQuery].  The closures [resolve] and [reject] belong to one
    promise; [promise] names it, and settling it is an entry of
    [settled] below. *)
Record PendingQuery : Type := {
  promise : nat;
  pending_messages : list ClaudeStreamMessage;
  pending_text : string
}.

(** What [Claude] reads of the [ChildProcess].  [start] throws unless
    [stdin] and [stdout] exist, so a process held in the field has both. *)
Record ChildProcess : Type := {
  exitCode : option Z
}.

(** The private fields of a [Claude] object. *)
Record Claude : Type := {
  process : option ChildProcess;
  _sessionId : option string;
  pendingQuery : option PendingQuery
}.

Inductive Settlement : Type :=
| Resolved (response : ClaudeResponse)
| Rejected (error : Error).

(** [ClaudeEvents] *)
Inductive Event : Type :=
| EvReady
| EvMessage (m : ClaudeStreamMessage)
| EvResponse (r : ClaudeResponse)
| EvError (e : Error)
| EvExit (code : option Z) (signal : option string).

(** The object with what its methods do to the outside: events emitted,
    promises settled (oldest first), the number of promises handed out and
    the chunks written to the child's input. *)
Record World : Type := {
  self : Claude;
  emitted : list Event;
  settled : list (nat * Settlement);
  promises : nat;
  stdin : list string
}.

Definition with_self (f : Claude -> Claude) (w : World) : World :=
  {| self := f (self w); emitted := emitted w; settled := settled w;
     promises := promises w; stdin := stdin w |}.

Definition set_process (p : option ChildProcess) (c : Claude) : Claude :=
  {| process := p; _sessionId := _sessionId c; pendingQuery := pendingQuery c |}.

Definition set_sessionId (s : option string) (c : Claude) : Claude :=
  {| process := process c; _sessionId := s; pendingQuery := pendingQuery c |}.

Definition set_pendingQuery (q : option PendingQuery) (c : Claude) : Claude :=
  {| process := process c; _sessionId := _sessionId c; pendingQuery := q |}.

Definition emit (e : Event) (w : World) : World :=
  {| self := self w; emitted := (emitted w ++ [e])%list; settled := settled w;
     promises := promises w; stdin := stdin w |}.

(** [resolve(response)] or [reject(error)] of promise [p]. *)
Definition settle (p : nat) (s : Settlement) (w : World) : World :=
  {| self := self w; emitted := emitted w;
     settled := (settled w ++ [(p, s)])%list;
     promises := promises w; stdin := stdin w |}.

Definition new_promise (w : World) : nat * World :=
  (promises w,
   {| self := self w; emitted := emitted w; settled := settled w;
      promises := S (promises w); stdin := stdin w |}).

(** [this.process.stdin.write(chunk)] *)
Definition stdin_write (chunk : string) (w : World) : World :=
  {| self := self w; emitted := emitted w; settled := settled w;
     promises := promises w; stdin := (stdin w ++ [chunk])%list |}.

(** The object after the constructor. *)
Definition constructed : World :=
  {| self := {| process := None; _sessionId := None; pendingQuery := None |};
     emitted := []; settled := []; promises := 0; stdin := [] |}.

(** [Claude.spawn], up to the wait for [ready]. *)
Definition spawned : World :=
  with_self (set_process (Some {| exitCode := None |})) constructed.

(** The errors of [writeMessage] and of [query]. *)
Definition not_running : Error := mkError "Claude process is not running".
Definition in_progress : Error := mkError "A query is already in progress".

(** [get isRunning] *)
Definition isRunning (c : Claude) : bool :=
  match process c with
  | Some p => match exitCode p with None => true | Some _ => false end
  | None => false
  end.

(** [start]: the field holds the spawned process; the handlers it installs
    are [handleLine] and [onExit] below. *)
Definition start (w : World) : World :=
  with_self (set_process (Some {| exitCode := None |})) w.

(** A template literal's rendering of [code : number | null]. *)
Definition show_code (code : option Z) : string :=
  match code with
  | None => "null"
  | Some z => NilZero.string_of_int (Z.to_int z)
  end.

(** The handler of the process's [exit] event (lines 104-115). *)
Definition onExit (code : option Z) (signal : option string) (w : World)
  : World :=
  let w1 := with_self (set_process None) w in
  let w2 :=
    match pendingQuery (self w1) with
    | Some pq =>
        with_self (set_pendingQuery None)
          (settle (promise pq)
             (Rejected (mkError ("Process exited with code " ++ show_code code)))
             w1)
    | None => w1
    end in
  emit (EvExit code signal) w2.

(** The loop over the blocks of an assistant message (lines 188-192). *)
Definition append_blocks (blocks : list StreamMessageContent) (text : string)
  : string :=
  fold_left
    (fun acc block =>
       match block_text block with
       | Some t =>
           if (block_type block =? "text") && negb (t =? "")
           then acc ++ t else acc
       | None => acc
       end)
    blocks text.

(** Lines 183-194: push the message, then add the text of its blocks. *)
Definition collect (m : ClaudeStreamMessage) (pq : PendingQuery)
  : PendingQuery :=
  let msgs := (pending_messages pq ++ [m])%list in
  let txt :=
    if type m =? "assistant" then
      match message m with
      | Some payload =>
          match content payload with
          | Some (ContentArray blocks) => append_blocks blocks (pending_text pq)
          | Some (ContentString _) => pending_text pq
          | None => pending_text pq
          end
      | None => pending_text pq
      end
    else pending_text pq in
  {| promise := promise pq; pending_messages := msgs; pending_text := txt |}.

(** [handleLine] from [const message = result.data] on (lines 176-207). *)
Definition handleMessage (m : ClaudeStreamMessage) (w : World) : World :=
  let w1 := with_self (set_sessionId (session_id m)) w in
  let w2 := emit (EvMessage m) w1 in
  match pendingQuery (self w2) with
  | None => w2
  | Some pq =>
      let pq' := collect m pq in
      if type m =? "result" then
        let response :=
          {| sessionId := match _sessionId (self w2) with
                          | Some s => s
                          | None => ""
                          end;
             messages := pending_messages pq';
             text := pending_text pq';
             result := m |} in
        emit (EvResponse response)
          (with_self (set_pendingQuery None)
             (settle (promise pq') (Resolved response) w2))
      else with_self (set_pendingQuery (Some pq')) w2
  end.

Section Platform.

Variable JSON_parse : string -> Error + json.
Variable JSON_stringify : json -> string.

(** [handleLine] (lines 161-208) *)
Definition handleLine (line : string) (w : World) : World :=
  if trim_is_empty line then w
  else
    match JSON_parse line with
    | inl _ => w
    | inr parsed =>
        match ClaudeStreamMessageSchema parsed with
        | None => w
        | Some m => handleMessage m w
        end
    end.

(** The object [writeMessage] serialises. *)
Definition envelope (prompt : string) : json :=
  JObj [("type", JStr "user");
        ("message", JObj [("role", JStr "user"); ("content", JStr prompt)])].

(** [writeMessage]: [inl] is the error it throws. *)
Definition writeMessage (prompt : string) (w : World) : Error + World :=
  if negb (isRunning (self w))
  then inl not_running
  else inr (stdin_write (JSON_stringify (envelope prompt) ++ String "010" "") w).

(** [query]: the promise it returns, and the world after the call. *)
Definition query (prompt : string) (w : World) : nat * World :=
  let (p, w0) := new_promise w in
  match pendingQuery (self w0) with
  | Some _ =>
      (p, settle p (Rejected in_progress) w0)
  | None =>
      let w1 :=
        with_self
          (set_pendingQuery
             (Some {| promise := p; pending_messages := [];
                      pending_text := "" |})) w0 in
      match writeMessage prompt w1 with
      | inr w2 => (p, w2)
      | inl error =>
          (p, settle p (Rejected error) (with_self (set_pendingQuery None) w1))
      end
  end.

(** What can happen to a channel once spawned. *)
Inductive Op : Type :=
| Line (line : string)
| Query (prompt : string)
| Exit (code : option Z) (signal : option string).

Definition step (w : World) (op : Op) : World :=
  match op with
  | Line line => handleLine line w
  | Query prompt => snd (query prompt w)
  | Exit code signal => onExit code signal w
  end.

Definition run (ops : list Op) (w : World) : World := fold_left step ops w.

(** The message a line delivers, when it delivers one. *)
Definition received (line : string) : option ClaudeStreamMessage :=
  if trim_is_empty line then None
  else match JSON_parse line with
       | inl _ => None
       | inr parsed => ClaudeStreamMessageSchema parsed
       end.

(** The messages a sequence of lines delivers, in order. *)
Fixpoint deliveries (lines : list string) : list ClaudeStreamMessage :=
  match lines with
  | [] => []
  | line :: rest =>
      match received line with
      | Some m => m :: deliveries rest
      | None => deliveries rest
      end
  end.

End Platform.

(** The pending query after it has collected the messages [ms]. *)
Definition collect_all (ms : list ClaudeStreamMessage) (pq : PendingQuery)
  : PendingQuery :=
  fold_left (fun q m => collect m q) ms pq.

Definition is_terminal (m : ClaudeStreamMessage) : bool := type m =? "result".

(** Promise [q] has been resolved or rejected. *)
Definition is_settled (q : nat) (w : World) : Prop :=
  In q (map fst (settled w)).

(** The promises handed out are the settled ones and the one of the pending
    query, which is not settled; none is settled twice. *)
Record promises_ok (w : World) : Prop := {
  settled_known : forall q, is_settled q w -> q < promises w;
  pending_known :
    forall pq, pendingQuery (self w) = Some pq ->
               promise pq < promises w /\ ~ is_settled (promise pq) w;
  others_settled :
    forall q, q < promises w ->
              is_settled q w \/
              exists pq, pendingQuery (self w) = Some pq /\ promise pq = q;
  settled_once : NoDup (map fst (settled w))
}.

End Claude.

(** ** Lines of a byte stream

    [readline.createInterface({ input, crlfDelay: Infinity })] read to the
    end of [input].  A line ends at LF, at CR LF or at a lone CR; with an
    infinite [crlfDelay] a LF after a CR never starts a line of its own.
    What is left in the buffer at the end is a line when it is not empty. *)

Definition LF : ascii := "010"%char.
Definition CR : ascii := "013"%char.

Fixpoint readline_from (sawReturn : bool) (buffer input : string)
  : list string :=
  match input with
  | EmptyString =>
      match buffer with EmptyString => [] | _ => [buffer] end
  | String c rest =>
      if Ascii.eqb c LF then
        if sawReturn then readline_from false "" rest
        else buffer :: readline_from false "" rest
      else if Ascii.eqb c CR then buffer :: readline_from true "" rest
      else readline_from false (buffer ++ String c "") rest
  end.

Definition readline (input : string) : list string :=
  readline_from false "" input.

(** The bytes of a file from offset [start] on:
    [createReadStream(source, { start })]. *)
Fixpoint createReadStream (file : string) (start : nat) : string :=
  match start, file with
  | O, _ => file
  | S n, EmptyString => EmptyString
  | S n, String _ rest => createReadStream rest n
  end.

(** The file is empty or its last byte is LF. *)
Fixpoint ends_line (s : string) : bool :=
  match s with
  | EmptyString => true
  | String c EmptyString => Ascii.eqb c LF
  | String _ rest => ends_line rest
  end.

(** The string holds no LF and no CR. *)
Fixpoint no_breaks (s : string) : bool :=
  match s with
  | EmptyString => true
  | String c rest =>
      negb (Ascii.eqb c LF) && negb (Ascii.eqb c CR) && no_breaks rest
  end.

(** [Array.prototype.join] *)
Fixpoint join (sep : string) (parts : list string) : string :=
  match parts with
  | [] => ""
  | [x] => x
  | x :: rest => x ++ sep ++ join sep rest
  end.

(** ** The conversation log: [JsonlFile] and [Conversation]

    [Conversation] is taken in its version with [clear] and
    [deleteMessage], the one the sources give after the class [Claude]. *)

Module Conversation.

(** A validated log record ([Message] of [schemas.ts]).  Of a user or
    assistant turn the class reads [uuid], [sessionId] and [isSidechain],
    of a snapshot [messageId]; [rest] and [others] hold the other validated
    keys. *)
Record Turn : Type := {
  uuid : string;
  sessionId : string;
  isSidechain : bool;
  rest : json
}.

Inductive Message : Type :=
| UserMessage (turn : Turn)
| AssistantMessage (turn : Turn)
| FileHistorySnapshot (messageId : string) (others : json).

(** The private fields of a [Conversation], but for the watcher. *)
Record Conversation : Type := {
  messages : list Message;
  byteOffset : nat;
  _sessionId : option string;
  _isSidechain : option bool;
  emitNewMessages : bool
}.

Inductive Event : Type :=
| EvMessage (m : Message)
| EvParseError (line : string) (error : Error).

(** The object, the content of the file at [source] and the events
    emitted, oldest first. *)
Record World : Type := {
  self : Conversation;
  file : string;
  emitted : list Event
}.

Definition with_self (f : Conversation -> Conversation) (w : World) : World :=
  {| self := f (self w); file := file w; emitted := emitted w |}.

Definition emit (e : Event) (w : World) : World :=
  {| self := self w; file := file w; emitted := (emitted w ++ [e])%list |}.

(** [writeFile(source, content)] *)
Definition writeFile (content : string) (w : World) : World :=
  {| self := self w; file := content; emitted := emitted w |}.

Definition push_message (m : Message) (c : Conversation) : Conversation :=
  {| messages := (messages c ++ [m])%list; byteOffset := byteOffset c;
     _sessionId := _sessionId c; _isSidechain := _isSidechain c;
     emitNewMessages := emitNewMessages c |}.

Definition set_messages (l : list Message) (c : Conversation) : Conversation :=
  {| messages := l; byteOffset := byteOffset c;
     _sessionId := _sessionId c; _isSidechain := _isSidechain c;
     emitNewMessages := emitNewMessages c |}.

Definition set_session (s : option string) (b : option bool)
  (c : Conversation) : Conversation :=
  {| messages := messages c; byteOffset := byteOffset c;
     _sessionId := s; _isSidechain := b;
     emitNewMessages := emitNewMessages c |}.

Definition set_byteOffset (n : nat) (c : Conversation) : Conversation :=
  {| messages := messages c; byteOffset := n;
     _sessionId := _sessionId c; _isSidechain := _isSidechain c;
     emitNewMessages := emitNewMessages c |}.

Definition set_emitNewMessages (b : bool) (c : Conversation) : Conversation :=
  {| messages := messages c; byteOffset := byteOffset c;
     _sessionId := _sessionId c; _isSidechain := _isSidechain c;
     emitNewMessages := b |}.

(** [new Conversation(source)] over a file with the given content. *)
Definition constructed (content : string) : World :=
  {| self := {| messages := []; byteOffset := 0; _sessionId := None;
                _isSidechain := None; emitNewMessages := false |};
     file := content; emitted := [] |}.

(** [getFileSize] *)
Definition getFileSize (w : World) : nat := String.length (file w).

(** The callback of [getMessage] and of [deleteMessage]. *)
Definition has_id (id : string) (msg : Message) : bool :=
  match msg with
  | FileHistorySnapshot messageId _ => messageId =? id
  | UserMessage t => uuid t =? id
  | AssistantMessage t => uuid t =? id
  end.

(** [Array.prototype.findIndex]: [None] is [-1]. *)
Fixpoint findIndex {A} (p : A -> bool) (l : list A) : option nat :=
  match l with
  | [] => None
  | x :: rest =>
      if p x then Some 0
      else match findIndex p rest with Some i => Some (S i) | None => None end
  end.

(** [l.splice(index, 1)]: what is left in [l]. *)
Fixpoint splice1 {A} (index : nat) (l : list A) : list A :=
  match index, l with
  | _, [] => []
  | O, _ :: rest => rest
  | S i, x :: rest => x :: splice1 i rest
  end.

Section Platform.

Variable JSON_parse : string -> Error + json.
Variable MessageSchema_safeParse : json -> option Message.
Variable JSON_stringify : Message -> string.

(** [Conversation.processObject]; it returns nothing, so the loop of
    [JsonlFile.load] never breaks on it. *)
Definition processObject (obj : json) (w : World) : World :=
  match MessageSchema_safeParse obj with
  | Some data =>
      let w1 := with_self (push_message data) w in
      let w2 :=
        match _sessionId (self w1), data with
        | None, UserMessage t | None, AssistantMessage t =>
            with_self (set_session (Some (sessionId t)) (Some (isSidechain t))) w1
        | _, _ => w1
        end in
      if emitNewMessages (self w2) then emit (EvMessage data) w2 else w2
  | None => w
  end.

(** The body of the loop of [JsonlFile.load], for one line. *)
Definition load_line (w : World) (line : string) : World :=
  match JSON_parse line with
  | inr obj => processObject obj w
  | inl error => emit (EvParseError line error) w
  end.

(** [JsonlFile.load(options)] with [options.start = start]. *)
Definition JsonlFile_load (start : nat) (w : World) : World :=
  fold_left load_line (readline (createReadStream (file w) start)) w.

(** [Conversation.load] *)
Definition load (w : World) : World :=
  let w1 := with_self (fun c => set_session None None (set_messages [] c)) w in
  let w2 := JsonlFile_load 0 w1 in
  with_self (set_byteOffset (getFileSize w2)) w2.

(** [Conversation.loadNewMessages] *)
Definition loadNewMessages (w : World) : World :=
  let currentSize := getFileSize w in
  if Nat.leb currentSize (byteOffset (self w)) then w
  else
    let w1 := with_self (set_emitNewMessages true) w in
    let w2 := JsonlFile_load (byteOffset (self w1)) w1 in
    let w3 := with_self (set_emitNewMessages false) w2 in
    with_self (set_byteOffset currentSize) w3.

(** [Conversation.create] *)
Definition create (content : string) : World := load (constructed content).

(** [Conversation.clear] *)
Definition clear (w : World) : World :=
  writeFile ""
    (with_self
       (fun c => set_byteOffset 0 (set_session None None (set_messages [] c)))
       w).

(** [Conversation.deleteMessage] *)
Definition deleteMessage (id : string) (w : World) : bool * World :=
  match findIndex (has_id id) (messages (self w)) with
  | None => (false, w)
  | Some index =>
      let w1 := with_self (set_messages (splice1 index (messages (self w)))) w in
      let content :=
        join (String LF "") (map JSON_stringify (messages (self w1))) in
      let written :=
        if content =? "" then "" else content ++ String LF "" in
      let w2 := writeFile written w1 in
      (true, with_self (set_byteOffset (String.length written)) w2)
  end.

(** The file grows by [bytes], or the watcher calls [loadNewMessages]. *)
Inductive Op : Type :=
| Append (bytes : string)
| Refresh.

Definition step (w : World) (op : Op) : World :=
  match op with
  | Append bytes => writeFile (file w ++ bytes) w
  | Refresh => loadNewMessages w
  end.

Definition run (ops : list Op) (w : World) : World := fold_left step ops w.

(** The records of a full parse of a file with this content. *)
Definition parseFull (content : string) : list Message :=
  messages (self (create content)).

(** The record a line holds, when it holds one. *)
Definition decode (line : string) : option Message :=
  match JSON_parse line with
  | inr obj => MessageSchema_safeParse obj
  | inl _ => None
  end.

(** The records of a sequence of lines, in order. *)
Fixpoint records (lines : list string) : list Message :=
  match lines with
  | [] => []
  | line :: more =>
      match decode line with
      | Some m => m :: records more
      | None => records more
      end
  end.

(** The parse errors of a sequence of lines, in order. *)
Fixpoint parse_errors (lines : list string) : list Event :=
  match lines with
  | [] => []
  | line :: more =>
      match JSON_parse line with
      | inl error => EvParseError line error :: parse_errors more
      | inr _ => parse_errors more
      end
  end.

(** The cursor stands at the end of whole lines, and the records are
    those of the bytes before it. *)
Definition in_step (w : World) (consumed pending : string) : Prop :=
  file w = consumed ++ pending /\
  byteOffset (self w) = String.length consumed /\
  ends_line consumed = true /\
  messages (self w) = records (readline consumed).

(** Serialising [m] gives one non-empty line that reads back as [m]. *)
Definition reads_back (m : Message) : Prop :=
  JSON_stringify m <> "" /\
  no_breaks (JSON_stringify m) = true /\
  decode (JSON_stringify m) = Some m.

(** Every [loadNewMessages] of [ops] finds the file, whose content is
    [content] before [ops], empty or ended by LF. *)
Fixpoint whole_lines_from (content : string) (ops : list Op) : bool :=
  match ops with
  | [] => true
  | Append bytes :: more => whole_lines_from (content ++ bytes) more
  | Refresh :: more => ends_line content && whole_lines_from content more
  end.

(** So does the [load] before [ops]. *)
Definition whole_lines (content : string) (ops : list Op) : bool :=
  ends_line content && whole_lines_from content ops.

End Platform.

End Conversation.

(** ** A reader and a printer of JSON text, to run the model on examples

    [Sample.parse] and [Sample.stringify] stand for [JSON.parse] and
    [JSON.stringify] where an example needs them.  They cover the JSON texts
    whose numbers are integers, whose strings have no [\u] escape and whose
    objects repeat no key; [parse] rejects every other text.
    [Sample.MessageSchema] checks of a log record the keys [Conversation]
    reads and keeps the other keys as they are. *)

Module Sample.

Definition quote : ascii := "034"%char.
Definition backslash : ascii := "092"%char.

Definition is_ws (c : ascii) : bool :=
  match N_of_ascii c with
  | 9%N | 10%N | 13%N | 32%N => true
  | _ => false
  end.

Fixpoint skip_ws (s : string) : string :=
  match s with
  | String c r => if is_ws c then skip_ws r else s
  | EmptyString => EmptyString
  end.

Definition unescape (c : ascii) : option ascii :=
  match N_of_ascii c with
  | 34%N => Some quote
  | 92%N => Some backslash
  | 47%N => Some "/"%char
  | 98%N => Some "008"%char
  | 102%N => Some "012"%char
  | 110%N => Some "010"%char
  | 114%N => Some "013"%char
  | 116%N => Some "009"%char
  | _ => None
  end.

(** The characters of a string literal, after its opening quote. *)
Fixpoint read_chars (s acc : string) : option (string * string) :=
  match s with
  | EmptyString => None
  | String c r =>
      if Ascii.eqb c quote then Some (acc, r)
      else if Ascii.eqb c backslash then
        match r with
        | String e r' =>
            match unescape e with
            | Some x => read_chars r' (acc ++ String x "")
            | None => None
            end
        | EmptyString => None
        end
      else if N.ltb (N_of_ascii c) 32 then None
      else read_chars r (acc ++ String c "")
  end.

Definition digit (c : ascii) : option Z :=
  let n := N_of_ascii c in
  if N.leb 48 n && N.leb n 57 then Some (Z.of_N n - 48)%Z else None.

Fixpoint read_digits (s : string) (acc : Z) : Z * string :=
  match s with
  | String c r =>
      match digit c with
      | Some d => read_digits r (10 * acc + d)%Z
      | None => (acc, s)
      end
  | EmptyString => (acc, s)
  end.

(** An integer without sign; a fraction or an exponent is refused. *)
Definition read_nat (s : string) : option (Z * string) :=
  match s with
  | String c r =>
      match digit c with
      | Some d =>
          let (n, r') := if Z.eqb d 0 then (0%Z, r) else read_digits r d in
          match r' with
          | String c' _ =>
              match digit c', N_of_ascii c' with
              | Some _, _ | _, 46%N | _, 69%N | _, 101%N => None
              | _, _ => Some (n, r')
              end
          | EmptyString => Some (n, r')
          end
      | None => None
      end
  | EmptyString => None
  end.

Definition literal (word rest : string) (v : json) : option (json * string) :=
  if String.prefix word rest
  then Some (v, createReadStream rest (String.length word))
  else None.

Fixpoint read_value (fuel : nat) (s : string) : option (json * string) :=
  match fuel with
  | O => None
  | S k =>
      match skip_ws s with
      | EmptyString => None
      | String c r as t =>
          match N_of_ascii c with
          | 123%N =>
              match skip_ws r with
              | String "}"%char r' => Some (JObj [], r')
              | _ =>
                  match read_members k r with
                  | Some (ps, r') => Some (JObj ps, r')
                  | None => None
                  end
              end
          | 91%N =>
              match skip_ws r with
              | String "]"%char r' => Some (JArr [], r')
              | _ =>
                  match read_elements k r with
                  | Some (vs, r') => Some (JArr vs, r')
                  | None => None
                  end
              end
          | 34%N =>
              match read_chars r "" with
              | Some (x, r') => Some (JStr x, r')
              | None => None
              end
          | 45%N =>
              match read_nat r with
              | Some (n, r') => Some (JNum (- n), r')
              | None => None
              end
          | 116%N => literal "true" t (JBool true)
          | 102%N => literal "false" t (JBool false)
          | 110%N => literal "null" t JNull
          | _ =>
              match read_nat t with
              | Some (n, r') => Some (JNum n, r')
              | None => None
              end
          end
      end
  end

with read_members (fuel : nat) (s : string)
  : option (list (string * json) * string) :=
  match fuel with
  | O => None
  | S k =>
      match skip_ws s with
      | String c r =>
          if Ascii.eqb c quote then
            match read_chars r "" with
            | Some (key, r1) =>
                match skip_ws r1 with
                | String ":"%char r2 =>
                    match read_value k r2 with
                    | Some (v, r3) =>
                        match skip_ws r3 with
                        | String "}"%char r4 => Some ([(key, v)], r4)
                        | String ","%char r4 =>
                            match read_members k r4 with
                            | Some (ps, r5) => Some ((key, v) :: ps, r5)
                            | None => None
                            end
                        | _ => None
                        end
                    | None => None
                    end
                | _ => None
                end
            | None => None
            end
          else None
      | EmptyString => None
      end
  end

with read_elements (fuel : nat) (s : string) : option (list json * string) :=
  match fuel with
  | O => None
  | S k =>
      match read_value k s with
      | Some (v, r1) =>
          match skip_ws r1 with
          | String "]"%char r2 => Some ([v], r2)
          | String ","%char r2 =>
              match read_elements k r2 with
              | Some (vs, r3) => Some (v :: vs, r3)
              | None => None
              end
          | _ => None
          end
      | None => None
      end
  end.

(** One value, then white space only.  A text of [n] bytes nests less than
    [n] deep, so the fuel never runs out on a text that can be read. *)
Definition parse (text : string) : Error + json :=
  match read_value (S (String.length text)) text with
  | Some (v, r) =>
      match skip_ws r with
      | EmptyString => inr v
      | _ => inl (mkError "Unexpected non-whitespace character after JSON")
      end
  | None => inl (mkError "Unexpected token or end of JSON input")
  end.

Fixpoint escape (s : string) : string :=
  match s with
  | EmptyString => EmptyString
  | String c r =>
      match N_of_ascii c with
      | 34%N => String backslash (String quote (escape r))
      | 92%N => String backslash (String backslash (escape r))
      | 8%N => String backslash (String "b" (escape r))
      | 12%N => String backslash (String "f" (escape r))
      | 10%N => String backslash (String "n" (escape r))
      | 13%N => String backslash (String "r" (escape r))
      | 9%N => String backslash (String "t" (escape r))
      | _ => String c (escape r)
      end
  end.

Definition quoted (s : string) : string :=
  String quote (escape s ++ String quote "").

Fixpoint stringify (v : json) : string :=
  match v with
  | JNull => "null"
  | JBool true => "true"
  | JBool false => "false"
  | JNum n => NilZero.string_of_int (Z.to_int n)
  | JStr s => quoted s
  | JArr items => "[" ++ join "," (map stringify items) ++ "]"
  | JObj props =>
      "{" ++ join ","
               (map (fun kv => quoted (fst kv) ++ ":" ++ stringify (snd kv))
                  props)
          ++ "}"
  end.

Import Conversation.

Definition is_turn_key (k : string) : bool :=
  (k =? "type") || (k =? "uuid") || (k =? "sessionId") || (k =? "isSidechain").

Definition turn_of (props : list (string * json)) : option Turn :=
  match prop "uuid" props, prop "sessionId" props, prop "isSidechain" props with
  | Some (JStr u), Some (JStr s), Some (JBool b) =>
      Some {| uuid := u; sessionId := s; isSidechain := b;
              rest := JObj (filter (fun kv => negb (is_turn_key (fst kv))) props) |}
  | _, _, _ => None
  end.

Definition is_snapshot_key (k : string) : bool :=
  (k =? "type") || (k =? "messageId").

Definition MessageSchema (v : json) : option Message :=
  match v with
  | JObj props =>
      match prop "type" props with
      | Some (JStr t) =>
          if t =? "user" then option_map UserMessage (turn_of props)
          else if t =? "assistant" then option_map AssistantMessage (turn_of props)
          else if t =? "file-history-snapshot" then
            match prop "messageId" props with
            | Some (JStr i) =>
                Some (FileHistorySnapshot i
                        (JObj (filter (fun kv => negb (is_snapshot_key (fst kv)))
                                 props)))
            | _ => None
            end
          else None
      | _ => None
      end
  | _ => None
  end.

Definition props_of (v : json) : list (string * json) :=
  match v with JObj props => props | _ => [] end.

Definition turn_json (t : string) (x : Turn) : json :=
  JObj (("type", JStr t) :: ("uuid", JStr (uuid x))
        :: ("sessionId", JStr (sessionId x))
        :: ("isSidechain", JBool (isSidechain x)) :: props_of (rest x)).

Definition message_json (m : Message) : json :=
  match m with
  | UserMessage x => turn_json "user" x
  | AssistantMessage x => turn_json "assistant" x
  | FileHistorySnapshot i s =>
      JObj (("type", JStr "file-history-snapshot") :: ("messageId", JStr i)
            :: props_of s)
  end.

Definition stringify_message (m : Message) : string :=
  stringify (message_json m).

End Sample.

(** ** Sample events and log records *)

Module Examples.

(** [{"type":"assistant","message":{"content":[{"type":"text","text":t}]}}] *)
Definition assistant_text (t : string) : json :=
  JObj [("type", JStr "assistant");
        ("message",
         JObj [("content", JArr [JObj [("type", JStr "text"); ("text", JStr t)]])])].

(** [{"type":"result","session_id":"S9"}] *)
Definition result_S9 : json :=
  JObj [("type", JStr "result"); ("session_id", JStr "S9")].

(** [{"type":"result"}] *)
Definition result_plain : json := JObj [("type", JStr "result")].

(** [{"type":"system","subtype":"init","session_id":"S1"}] *)
Definition system_S1 : json :=
  JObj [("type", JStr "system"); ("subtype", JStr "init");
        ("session_id", JStr "S1")].

(** What the schema makes of [assistant_text t]. *)
Definition assistant_message (t : string) : Schemas.ClaudeStreamMessage :=
  {| Schemas.type := "assistant"; Schemas.subtype := None;
     Schemas.message :=
       Some {| Schemas.role := None;
               Schemas.content :=
                 Some (Schemas.ContentArray
                         [{| Schemas.block_type := "text";
                             Schemas.block_text := Some t |}]) |};
     Schemas.session_id := None; Schemas.result_text := None |}.

(** What the schema makes of a [result] event with this [session_id]. *)
Definition result_message (sid : option string) : Schemas.ClaudeStreamMessage :=
  {| Schemas.type := "result"; Schemas.subtype := None;
     Schemas.message := None;
     Schemas.session_id := sid; Schemas.result_text := None |}.

Definition turn_keys (id parent : json) : list (string * json) :=
  [("uuid", id);
   ("sessionId", JStr "5f2c1a7e-3b4d-4c6f-8a9b-0c1d2e3f4a5b");
   ("isSidechain", JBool false);
   ("parentUuid", parent);
   ("timestamp", JStr "2025-01-01T00:00:00.000Z");
   ("version", JStr "2.0.0");
   ("cwd", JStr "/tmp");
   ("userType", JStr "external")].

Definition user_id : string := "0a1b2c3d-0000-4000-8000-000000000001".
Definition assistant_id : string := "0a1b2c3d-0000-4000-8000-000000000002".

Definition user_record : json :=
  JObj ((("type", JStr "user") :: turn_keys (JStr user_id) JNull)
        ++ [("message", JObj [("role", JStr "user"); ("content", JStr "hi")])]).

Definition assistant_record : json :=
  JObj ((("type", JStr "assistant")
         :: turn_keys (JStr assistant_id) (JStr user_id))
        ++ [("message",
             JObj [("id", JStr "msg_1"); ("model", JStr "m");
                   ("role", JStr "assistant"); ("type", JStr "message");
                   ("stop_reason", JStr "end_turn"); ("stop_sequence", JNull);
                   ("content",
                    JArr [JObj [("type", JStr "text"); ("text", JStr "hello")]]);
                   ("usage",
                    JObj [("input_tokens", JNum 1); ("output_tokens", JNum 1);
                          ("cache_creation_input_tokens", JNum 0);
                          ("cache_read_input_tokens", JNum 0);
                          ("service_tier", JNull)])])]).

Definition snapshot_record : json :=
  JObj [("type", JStr "file-history-snapshot");
        ("messageId", JStr user_id);
        ("isSnapshotUpdate", JBool false);
        ("snapshot",
         JObj [("messageId", JStr user_id);
               ("trackedFileBackups", JObj []);
               ("timestamp", JStr "2025-01-01T00:00:00.000Z")])].

Definition user_line : string := Sample.stringify user_record.
Definition assistant_line : string := Sample.stringify assistant_record.
Definition snapshot_line : string := Sample.stringify snapshot_record.

Definition newline : string := String LF "".

(** [user_line] cut in two after its first 40 bytes. *)
Definition user_line_head : string := substring 0 40 user_line.
Definition user_line_tail : string :=
  substring 40 (String.length user_line - 40) user_line.

(** A line cut in two by the writer, with a refresh in between. *)
Definition partial_appends : list Conversation.Op :=
  [Conversation.Append user_line_head; Conversation.Refresh;
   Conversation.Append (user_line_tail ++ newline); Conversation.Refresh].

(** Two whole lines, with a refresh in between. *)
Definition whole_appends : list Conversation.Op :=
  [Conversation.Append (user_line ++ newline); Conversation.Refresh;
   Conversation.Append (assistant_line ++ newline)].

(** The response to a query that saw [assistant_text "hel"] and then
    [result_plain]. *)
Definition plain_response : Schemas.ClaudeResponse :=
  {| Schemas.sessionId := "";
     Schemas.messages := [assistant_message "hel"; result_message None];
     Schemas.text := "hel";
     Schemas.result := result_message None |}.

(** A log of three records, one per line. *)
Definition three_records : string :=
  user_line ++ newline ++ snapshot_line ++ newline
  ++ assistant_line ++ newline.

End Examples.

(** ** What a run of the channel shows to the outside *)

Module Trace.
Import Schemas Claude.

(** The lines and the prompts among the steps of a run. *)
Definition lines_of (ops : list Op) : list string :=
  flat_map (fun op => match op with Line l => [l] | _ => [] end) ops.

Definition prompts_of (ops : list Op) : list string :=
  flat_map (fun op => match op with Query p => [p] | _ => [] end) ops.

(** The arguments of the [message] and of the [response] events. *)
Definition message_events (evs : list Event) : list ClaudeStreamMessage :=
  flat_map (fun e => match e with EvMessage m => [m] | _ => [] end) evs.

Definition response_events (evs : list Event) : list ClaudeResponse :=
  flat_map (fun e => match e with EvResponse r => [r] | _ => [] end) evs.

(** The values promises were resolved with, oldest first. *)
Definition resolutions (l : list (nat * Settlement)) : list ClaudeResponse :=
  flat_map (fun s => match snd s with Resolved r => [r] | Rejected _ => [] end) l.

(** The text one message adds to the buffer of a pending query: what
    [collect] leaves in an empty buffer. *)
Definition message_text (m : ClaudeStreamMessage) : string :=
  pending_text
    (collect m {| promise := 0; pending_messages := []; pending_text := "" |}).

(** [_sessionId] after the messages [ms], from [start]. *)
Definition last_session_id (ms : list ClaudeStreamMessage)
  (start : option string) : option string :=
  fold_left (fun _ m => session_id m) ms start.

Definition pending_count (w : World) : nat :=
  match pendingQuery (self w) with Some _ => 1 | None => 0 end.

(** The chunk [writeMessage] writes for a prompt. *)
Definition chunk (JSON_stringify : json -> string) (prompt : string) : string :=
  JSON_stringify (envelope prompt) ++ String "010" "".

(** A response as [handleLine] builds them: the terminal event last and
    only there, the text that of its messages, the session identifier that
    of the terminal event. *)
Definition well_formed (r : ClaudeResponse) : Prop :=
  is_terminal (result r) = true /\
  (exists earlier,
     messages r = (earlier ++ [result r])%list /\
     forallb (fun m => negb (is_terminal m)) earlier = true) /\
  text r = String.concat "" (map message_text (messages r)) /\
  sessionId r = match session_id (result r) with Some s => s | None => "" end.

(** A pending query has collected no terminal event, and its buffer is
    the text of its messages. *)
Definition collecting (pq : PendingQuery) : Prop :=
  forallb (fun m => negb (is_terminal m)) (pending_messages pq) = true /\
  pending_text pq = String.concat "" (map message_text (pending_messages pq)).

(** The prompts of the queries of a run that find the channel idle and
    running, in call order. *)
Fixpoint accepted (JSON_parse : string -> Error + json)
  (JSON_stringify : json -> string) (ops : list Op) (w : World)
  : list string :=
  match ops with
  | [] => []
  | op :: more =>
      (match op, pendingQuery (self w) with
       | Query prompt, None => if isRunning (self w) then [prompt] else []
       | _, _ => []
       end
       ++ accepted JSON_parse JSON_stringify more
            (step JSON_parse JSON_stringify w op))%list
  end.

End Trace.

(** ** Spawning: [ClaudeOptions] and [Claude.buildArgs] *)

Module Spawn.

(** [ClaudeOptions]; [None] is an absent key. *)
Record ClaudeOptions : Type := {
  cwd : option string;
  model : option string;
  allowedTools : option (list string);
  systemPrompt : option string;
  dangerouslySkipPermissions : option bool;
  sessionId : option string;
  resume : option bool;
  args : option (list string)
}.

Definition base_args : list string :=
  ["-p"; "--input-format"; "stream-json"; "--output-format"; "stream-json";
   "--verbose"].

(** [buildArgs] (lines 118-159); [acc] is the array [args]. *)
Definition buildArgs (o : ClaudeOptions) : list string :=
  let acc := base_args in
  let acc :=
    match model o with
    | Some m => if m =? "" then acc else (acc ++ ["--model"; m])%list
    | None => acc
    end in
  let acc :=
    match allowedTools o with
    | Some tools =>
        fold_left (fun a tool => (a ++ ["--allowedTools"; tool])%list) tools acc
    | None => acc
    end in
  let acc :=
    match systemPrompt o with
    | Some p => if p =? "" then acc else (acc ++ ["--system-prompt"; p])%list
    | None => acc
    end in
  let acc :=
    match dangerouslySkipPermissions o with
    | Some true => (acc ++ ["--dangerously-skip-permissions"])%list
    | _ => acc
    end in
  let acc :=
    match sessionId o with
    | Some s => if s =? "" then acc else (acc ++ ["--session-id"; s])%list
    | None => acc
    end in
  let acc :=
    match resume o with
    | Some true =>
        (acc ++ ["--resume"; match sessionId o with Some s => s | None => "" end])%list
    | _ => acc
    end in
  match args o with
  | Some extra => (acc ++ extra)%list
  | None => acc
  end.

(** The constructor's [this.cwd = options.cwd ?? process.cwd()]. *)
Definition cwd_of (o : ClaudeOptions) (process_cwd : string) : string :=
  match cwd o with Some d => d | None => process_cwd end.

(** The options with every key [buildArgs] finds falsy or empty removed. *)
Definition effective (o : ClaudeOptions) : ClaudeOptions :=
  let nonempty (s : option string) :=
    match s with Some x => if x =? "" then None else Some x | None => None end in
  let nonnil (l : option (list string)) :=
    match l with Some [] => None | _ => l end in
  let set (b : option bool) :=
    match b with Some true => Some true | _ => None end in
  {| cwd := cwd o; model := nonempty (model o);
     allowedTools := nonnil (allowedTools o);
     systemPrompt := nonempty (systemPrompt o);
     dangerouslySkipPermissions := set (dangerouslySkipPermissions o);
     sessionId := nonempty (sessionId o);
     resume := set (resume o);
     args := nonnil (args o) |}.

Definition count_if (b : bool) (n : nat) : nat := if b then n else 0.

(** A flag and its value, when the value is a non-empty string. *)
Definition with_value (flag : string) (v : option string) : list string :=
  match v with
  | Some x => if x =? "" then [] else [flag; x]
  | None => []
  end.

Definition or_nil (l : option (list string)) : list string :=
  match l with Some x => x | None => [] end.

Definition or_empty (s : option string) : string :=
  match s with Some x => x | None => "" end.

Definition given (s : option string) : bool :=
  match s with Some x => negb (x =? "") | None => false end.

Definition is_set (b : option bool) : bool :=
  match b with Some true => true | _ => false end.

Definition size (l : option (list string)) : nat :=
  match l with Some x => List.length x | None => 0 end.

End Spawn.

(** ** Looking records up, and histories of a conversation *)

Module Lookup.
Import Conversation.

(** [getMessages]: a copy of the array. *)
Definition getMessages (c : Conversation) : list Message := messages c.

(** [getMessage]: [None] is [undefined]. *)
Definition getMessage (id : string) (c : Conversation) : option Message :=
  find (has_id id) (messages c).

(** The first user or assistant record:
    [find((msg) => msg.type === 'user' || msg.type === 'assistant')]. *)
Fixpoint first_turn (l : list Message) : option Turn :=
  match l with
  | [] => None
  | UserMessage t :: _ => Some t
  | AssistantMessage t :: _ => Some t
  | FileHistorySnapshot _ _ :: more => first_turn more
  end.

(** The arguments of the [message] events. *)
Definition message_events (evs : list Event) : list Message :=
  flat_map (fun e => match e with EvMessage m => [m] | _ => [] end) evs.

(** [sessionId] and [isSidechain] are those of the first turn in memory. *)
Definition latched (c : Conversation) : Prop :=
  _sessionId c = option_map sessionId (first_turn (messages c)) /\
  _isSidechain c = option_map isSidechain (first_turn (messages c)).

Section Platform.

Variable JSON_parse : string -> Error + json.
Variable MessageSchema_safeParse : json -> option Message.
Variable JSON_stringify : Message -> string.

(** What happens to a conversation and its file: the external tool appends
    bytes, or a method of the class is called. *)
Inductive Action : Type :=
| Grow (bytes : string)
| Notify
| Delete (id : string)
| Clear
| Reload.

Definition act (w : World) (a : Action) : World :=
  match a with
  | Grow bytes => writeFile (file w ++ bytes) w
  | Notify => loadNewMessages JSON_parse MessageSchema_safeParse w
  | Delete id => snd (deleteMessage JSON_stringify id w)
  | Clear => clear w
  | Reload => load JSON_parse MessageSchema_safeParse w
  end.

Definition perform (acts : list Action) (w : World) : World :=
  fold_left act acts w.

Definition is_grow (a : Action) : bool :=
  match a with Grow _ => true | _ => false end.

(** The action leaves the records in memory in place: it is neither
    [Delete], [Clear] nor [Reload]. *)
Definition keeps_history (a : Action) : bool :=
  match a with Grow _ | Notify => true | _ => false end.

Definition is_delete (a : Action) : bool :=
  match a with Delete _ => true | _ => false end.

(** [Clear] and [Reload] start the records over. *)
Definition is_reset (a : Action) : bool :=
  match a with Clear | Reload => true | _ => false end.

End Platform.

End Lookup.

(** ** [JsonlFile.load] for any [processObject]

    [processObject] is abstract in [JsonlFile]; it may return [true] to stop
    the loop.  [S] is the state of the object with what it has emitted. *)

Module JsonlFile.

Section Generic.

Variable S : Type.
Variable JSON_parse : string -> Error + json.
Variable processObject : json -> S -> bool * S.
Variable emit_parseError : string -> Error -> S -> S.

(** The loop over the lines: whether it broke, and the state. *)
Fixpoint loop (lines : list string) (s : S) : bool * S :=
  match lines with
  | [] => (false, s)
  | line :: more =>
      match JSON_parse line with
      | inr obj =>
          let (stop, s') := processObject obj s in
          if stop then (true, s') else loop more s'
      | inl error => loop more (emit_parseError line error s)
      end
  end.

(** [load(options)] over a file with this content. *)
Definition load (content : string) (start : nat) (s : S) : S :=
  snd (loop (readline (createReadStream content start)) s).

End Generic.

End JsonlFile.

(** ** Sessions and projects: [src/session.ts], [src/project.ts]

    A directory is given by the contents of the files a glob pattern
    matches in it, in the order [fast-glob] returns them. *)

Module Sessions.
Import Conversation Lookup.

(** A key of a turn that the schema makes a string ([cwd], [version],
    [timestamp], [gitBranch]); [None] when the key is absent. *)
Definition key (k : string) (t : Turn) : option string :=
  match rest t with
  | JObj props =>
      match prop k props with Some (JStr s) => Some s | _ => None end
  | _ => None
  end.

(** The fields of a [Session]. *)
Record Session : Type := {
  claudeDir : string;
  _conversation : World;
  _projectPath : option string;
  _sidechains : option (list World);
  _version : option string;
  _startedAt : option string;
  _gitBranch : option string
}.

(** [new Session(conversation, claudeDir)] *)
Definition new (conversation : World) (dir : string) : Session :=
  {| claudeDir := dir; _conversation := conversation; _projectPath := None;
     _sidechains := None; _version := None; _startedAt := None;
     _gitBranch := None |}.

(** [get id] *)
Definition id (s : Session) : option string :=
  _sessionId (self (_conversation s)).

(** [loadMetadata] *)
Definition loadMetadata (s : Session) : Session :=
  match first_turn (getMessages (self (_conversation s))) with
  | None => s
  | Some message =>
      {| claudeDir := claudeDir s; _conversation := _conversation s;
         _projectPath := key "cwd" message;
         _sidechains := _sidechains s;
         _version := key "version" message;
         _startedAt := key "timestamp" message;
         _gitBranch := key "gitBranch" message |}
  end.

(** [Session.create] *)
Definition create (conversation : World) (dir : string) : Session :=
  loadMetadata (new conversation dir).

Definition set_sidechains (l : list World) (s : Session) : Session :=
  {| claudeDir := claudeDir s; _conversation := _conversation s;
     _projectPath := _projectPath s; _sidechains := Some l;
     _version := _version s; _startedAt := _startedAt s;
     _gitBranch := _gitBranch s |}.

(** [conv.sessionId === sessionId], for a string [sessionId]. *)
Definition has_session (sid : string) (conv : World) : bool :=
  match _sessionId (self conv) with
  | Some x => x =? sid
  | None => false
  end.

(** [getSidechains]: [inl] is the error it throws. *)
Definition getSidechains (s : Session) : Error + list World :=
  match _sidechains s with
  | None => inl (mkError "Sidechains not loaded. Call loadSidechains() first.")
  | Some l => inr l
  end.

(** [!conv.isSidechain] *)
Definition is_main (conv : World) : bool :=
  match _isSidechain (self conv) with
  | Some true => false
  | _ => true
  end.

Section Platform.

Variable JSON_parse : string -> Error + json.
Variable MessageSchema_safeParse : json -> option Message.

Definition open (content : string) : World :=
  Conversation.create JSON_parse MessageSchema_safeParse content.

(** [loadSidechains], with the files [agent-*.jsonl] of the directory. *)
Definition loadSidechains (agent_files : list string) (s : Session)
  : Session :=
  match _sidechains s with
  | Some _ => s
  | None =>
      match id s with
      | None => set_sidechains [] s
      | Some sid =>
          if sid =? "" then set_sidechains [] s
          else set_sidechains (filter (has_session sid) (map open agent_files)) s
      end
  end.

(** [Session.getById], with the files named by a UUID. *)
Fixpoint getById (sid : string) (main_files : list string) (dir : string)
  : option Session :=
  match main_files with
  | [] => None
  | entry :: more =>
      let conversation := open entry in
      if has_session sid conversation then Some (create conversation dir)
      else getById sid more dir
  end.

(** [Project.loadSessions], with the files named by a UUID. *)
Definition loadSessions (main_files : list string) (dir : string)
  : list Session :=
  map (fun conv => new conv dir) (filter is_main (map open main_files)).

End Platform.

End Sessions.

(** ** [Conversation.filter] *)

Module Filter.
Import Conversation.

(** A [Date] is the time it holds; [None] is an invalid date, which
    compares [false] with every date. *)
Definition Date : Type := option Z.

(** [FilterCriteria] *)
Record FilterCriteria : Type := {
  type : option string;
  startDate : option Date;
  endDate : option Date
}.

(** [msg.type] *)
Definition type_of (msg : Message) : string :=
  match msg with
  | UserMessage _ => "user"
  | AssistantMessage _ => "assistant"
  | FileHistorySnapshot _ _ => "file-history-snapshot"
  end.

(** [msg.snapshot.timestamp] of a snapshot and [msg.timestamp] of a turn,
    which the schema makes strings. *)
Definition timestamp_of (msg : Message) : option string :=
  match msg with
  | UserMessage t | AssistantMessage t => Sessions.key "timestamp" t
  | FileHistorySnapshot _ (JObj props) =>
      match prop "snapshot" props with
      | Some (JObj inner) =>
          match prop "timestamp" inner with
          | Some (JStr s) => Some s
          | _ => None
          end
      | _ => None
      end
  | FileHistorySnapshot _ _ => None
  end.

(** [a < b] on dates. *)
Definition earlier (a b : Date) : bool :=
  match a, b with
  | Some x, Some y => Z.ltb x y
  | _, _ => false
  end.

Section Platform.

(** [new Date(text)]. *)
Variable Date_of : option string -> Date.

(** The callback of [filter]. *)
Definition keeps (criteria : FilterCriteria) (msg : Message) : bool :=
  if match type criteria with
     | Some t => negb (t =? "") && negb (type_of msg =? t)
     | None => false
     end
  then false
  else
    let timestamp := Date_of (timestamp_of msg) in
    if match startDate criteria with
       | Some d => earlier timestamp d
       | None => false
       end
    then false
    else if match endDate criteria with
            | Some d => earlier d timestamp
            | None => false
            end
    then false
    else true.

(** [filter] *)
Definition filter (criteria : FilterCriteria) (c : Conversation)
  : list Message :=
  List.filter (keeps criteria) (messages c).

End Platform.

End Filter.

(** ** Watching the file: [subscribe] and [unsubscribe]

    An [error] listener is taken to be attached to the conversation, so
    that [emit('error', ...)] returns; the errors emitted are kept in
    [errors]. *)

Module Watch.
Import Conversation.

(** A conversation with its watcher.  Watchers are numbered as [watch]
    returns them; [closed] lists those whose [close] has returned. *)
Record Watched : Type := {
  source : string;
  log : World;
  watcher : option nat;
  opened : nat;
  closed : list nat;
  errors : list Error
}.

Definition watching (path content : string)
  (create : string -> World) : Watched :=
  {| source := path; log := create content; watcher := None; opened := 0;
     closed := []; errors := [] |}.

(** [subscribe] *)
Definition subscribe (w : Watched) : Watched :=
  match watcher w with
  | Some _ => w
  | None =>
      {| source := source w; log := log w; watcher := Some (opened w);
         opened := S (opened w); closed := closed w; errors := errors w |}
  end.

(** [unsubscribe]; [close_throws] tells whether [watcher.close()] throws. *)
Definition unsubscribe (close_throws : bool) (w : Watched) : Watched :=
  match watcher w with
  | None => w
  | Some h =>
      {| source := source w; log := log w; watcher := None;
         opened := opened w;
         closed := if close_throws then closed w else (closed w ++ [h])%list;
         errors :=
           if close_throws
           then (errors w ++
                 [mkError ("Failed to close watcher: " ++ source w)])%list
           else errors w |}
  end.

(** Every watcher opened has been closed once, but for the one in the
    field. *)
Definition tidy (w : Watched) : Prop :=
  NoDup (closed w) /\
  (forall h, In h (closed w) -> h < opened w) /\
  match watcher w with
  | Some h =>
      h < opened w /\ ~ In h (closed w) /\
      forall h', h' < opened w -> h' <> h -> In h' (closed w)
  | None => forall h', h' < opened w -> In h' (closed w)
  end.

(** Watcher [h] still delivers events. *)
Definition live (h : nat) (w : Watched) : bool :=
  Nat.ltb h (opened w) && negb (existsb (Nat.eqb h) (closed w)).

Section Platform.

Variable JSON_parse : string -> Error + json.
Variable MessageSchema_safeParse : json -> option Message.

Definition with_log (f : World -> World) (w : Watched) : Watched :=
  {| source := source w; log := f (log w); watcher := watcher w;
     opened := opened w; closed := closed w; errors := errors w |}.

(** The callback given to [watch], called by watcher [h]. *)
Definition on_event (h : nat) (eventType : string) (w : Watched) : Watched :=
  if live h w && (eventType =? "change")
  then with_log (loadNewMessages JSON_parse MessageSchema_safeParse) w
  else w.

(** The handler of the [error] event of watcher [h]. *)
Definition on_error (h : nat) (close_throws : bool) (w : Watched) : Watched :=
  if live h w
  then
    unsubscribe close_throws
      {| source := source w; log := log w; watcher := watcher w;
         opened := opened w; closed := closed w;
         errors :=
           (errors w ++ [mkError ("File watch failed for: " ++ source w)])%list |}
  else w.

Inductive Signal : Type :=
| Subscribe
| Unsubscribe (close_throws : bool)
| FsEvent (h : nat) (eventType : string)
| WatcherError (h : nat) (close_throws : bool)
| Written (bytes : string).

Definition react (w : Watched) (s : Signal) : Watched :=
  match s with
  | Subscribe => subscribe w
  | Unsubscribe b => unsubscribe b w
  | FsEvent h t => on_event h t w
  | WatcherError h b => on_error h b w
  | Written bytes => with_log (fun v => writeFile (file v ++ bytes) v) w
  end.

Definition history (signals : list Signal) (w : Watched) : Watched :=
  fold_left react signals w.

(** No [close] of the history throws. *)
Definition closes_cleanly (s : Signal) : bool :=
  match s with
  | Unsubscribe b | WatcherError _ b => negb b
  | _ => true
  end.

End Platform.

End Watch.

(** ** More sample inputs *)

Module MoreExamples.
Import Examples.

(** [{"type":"system","session_id":null}] *)
Definition system_null_id : json :=
  JObj [("type", JStr "system"); ("session_id", JNull)].

(** A run with one query, an assistant event and a plain result. *)
Definition plain_run : list Claude.Op :=
  [Claude.Query "hi";
   Claude.Line (Sample.stringify (assistant_text "hel"));
   Claude.Line (Sample.stringify result_plain)].

(** [{ resume: true }] *)
Definition resume_only : Spawn.ClaudeOptions :=
  {| Spawn.cwd := None; Spawn.model := None; Spawn.allowedTools := None;
     Spawn.systemPrompt := None; Spawn.dangerouslySkipPermissions := None;
     Spawn.sessionId := None; Spawn.resume := Some true;
     Spawn.args := None |}.

(** A log that starts with a snapshot. *)
Definition snapshot_first : string :=
  snapshot_line ++ newline ++ user_line ++ newline.

Definition session_id : string := "5f2c1a7e-3b4d-4c6f-8a9b-0c1d2e3f4a5b".

(** The tool appends the assistant turn, and the watcher reports it. *)
Definition grow_and_notify
  : list (Lookup.Action) :=
  [Lookup.Grow (assistant_line ++ newline); Lookup.Notify].

Definition three : Conversation.World :=
  Conversation.create Sample.parse Sample.MessageSchema three_records.

Definition watch_signals : list Watch.Signal :=
  [Watch.Subscribe; Watch.Subscribe; Watch.FsEvent 0 "change";
   Watch.Unsubscribe false; Watch.Subscribe].

End MoreExamples.

(** * Properties of the process channel *)

Section ClaudeProperties.

Import Schemas Claude.

Variable JSON_parse : string -> Error + json.
Variable JSON_stringify : json -> string.

Local Abbreviation handleLine := (Claude.handleLine JSON_parse).
Local Abbreviation received := (Claude.received JSON_parse).
Local Abbreviation query := (Claude.query JSON_stringify).
Local Abbreviation step := (Claude.step JSON_parse JSON_stringify).
Local Abbreviation run := (Claude.run JSON_parse JSON_stringify).

(** A line changes the channel only through the message it delivers. *)
Lemma handleLine_received (line : string) (w : World) :
  handleLine line w =
  match received line with
  | Some m => handleMessage m w
  | None => w
  end.
Proof.
  unfold Claude.handleLine, Claude.received.
  destruct (trim_is_empty line); [reflexivity|].
  destruct (JSON_parse line); reflexivity.
Qed.

Lemma handleMessage_sessionId (m : ClaudeStreamMessage) (w : World) :
  _sessionId (self (handleMessage m w)) = session_id m.
Proof.
  unfold handleMessage; simpl.
  destruct (pendingQuery (self w)); simpl; [|reflexivity].
  destruct (type m =? "result"); reflexivity.
Qed.

Lemma handleMessage_process (m : ClaudeStreamMessage) (w : World) :
  process (self (handleMessage m w)) = process (self w).
Proof.
  unfold handleMessage; simpl.
  destruct (pendingQuery (self w)); simpl; [|reflexivity].
  destruct (type m =? "result"); reflexivity.
Qed.

Lemma handleMessage_stdin (m : ClaudeStreamMessage) (w : World) :
  stdin (handleMessage m w) = stdin w.
Proof.
  unfold handleMessage; simpl.
  destruct (pendingQuery (self w)); simpl; [|reflexivity].
  destruct (type m =? "result"); reflexivity.
Qed.

Lemma handleMessage_idle (m : ClaudeStreamMessage) (w : World) :
  pendingQuery (self w) = None ->
  pendingQuery (self (handleMessage m w)) = None /\
  settled (handleMessage m w) = settled w /\
  promises (handleMessage m w) = promises w.
Proof.
  intros H. unfold handleMessage; simpl. rewrite H. simpl. auto.
Qed.

(** A terminal event resolves the pending query. *)
Lemma handleMessage_result (m : ClaudeStreamMessage) (w : World)
  (pq : PendingQuery) :
  pendingQuery (self w) = Some pq ->
  type m = "result" ->
  handleMessage m w =
  let response :=
    {| sessionId := match session_id m with Some s => s | None => "" end;
       messages := (pending_messages pq ++ [m])%list;
       text := pending_text pq;
       result := m |} in
  emit (EvResponse response)
    (with_self (set_pendingQuery None)
       (settle (promise pq) (Resolved response)
          (emit (EvMessage m) (with_self (set_sessionId (session_id m)) w)))).
Proof.
  intros Hpq Ht. unfold handleMessage; simpl. rewrite Hpq.
  unfold collect. rewrite Ht. simpl. reflexivity.
Qed.

(** Any other event is collected and leaves the query pending. *)
Lemma handleMessage_collect (m : ClaudeStreamMessage) (w : World)
  (pq : PendingQuery) :
  pendingQuery (self w) = Some pq ->
  (type m =? "result") = false ->
  handleMessage m w =
  with_self (set_pendingQuery (Some (collect m pq)))
    (emit (EvMessage m) (with_self (set_sessionId (session_id m)) w)).
Proof.
  intros Hpq Ht. unfold handleMessage; simpl. rewrite Hpq, Ht. reflexivity.
Qed.

Lemma query_pending (prompt : string) (w : World) (pq : PendingQuery) :
  pendingQuery (self w) = Some pq ->
  query prompt w =
  (promises w, settle (promises w) (Rejected in_progress) (snd (new_promise w))).
Proof.
  intros H. unfold Claude.query. simpl. rewrite H. reflexivity.
Qed.

Lemma query_not_running (prompt : string) (w : World) :
  pendingQuery (self w) = None ->
  isRunning (self w) = false ->
  query prompt w =
  (promises w,
   settle (promises w) (Rejected not_running)
     (with_self (set_pendingQuery None)
        (with_self
           (set_pendingQuery
              (Some {| promise := promises w; pending_messages := [];
                       pending_text := "" |}))
           (snd (new_promise w))))).
Proof.
  intros Hp Hr. unfold Claude.query, writeMessage. simpl. rewrite Hp.
  unfold isRunning in *. simpl. 
  destruct (process (self w)) as [cp|]; simpl in *.
  - destruct (exitCode cp); [reflexivity|discriminate].
  - reflexivity.
Qed.

Lemma query_running (prompt : string) (w : World) :
  pendingQuery (self w) = None ->
  isRunning (self w) = true ->
  query prompt w =
  (promises w,
   stdin_write (JSON_stringify (envelope prompt) ++ String "010" "")
     (with_self
        (set_pendingQuery
           (Some {| promise := promises w; pending_messages := [];
                    pending_text := "" |}))
        (snd (new_promise w)))).
Proof.
  intros Hp Hr. unfold Claude.query, writeMessage. simpl. rewrite Hp.
  unfold isRunning in *. simpl.
  destruct (process (self w)) as [cp|]; simpl in *.
  - destruct (exitCode cp); [discriminate|reflexivity].
  - discriminate.
Qed.

(** Lines that deliver no terminal event are collected by the pending
    query and settle nothing. *)
Lemma lines_collected (ls : list string) :
  forall (w : World) (pq : PendingQuery),
  pendingQuery (self w) = Some pq ->
  forallb (fun m => negb (is_terminal m)) (Claude.deliveries JSON_parse ls) = true ->
  let w' := fold_left (fun v l => handleLine l v) ls w in
  pendingQuery (self w') =
    Some (collect_all (Claude.deliveries JSON_parse ls) pq) /\
  settled w' = settled w /\ stdin w' = stdin w /\
  promises w' = promises w /\ process (self w') = process (self w).
Proof.
  induction ls as [|l ls IH]; intros w pq Hpq Hnt; simpl in *.
  - auto.
  - rewrite handleLine_received.
    destruct (received l) as [m|] eqn:Hr.
    + simpl in Hnt. apply andb_true_iff in Hnt as [Hm Hrest].
      unfold is_terminal in Hm. apply negb_true_iff in Hm.
      rewrite (handleMessage_collect m w pq Hpq Hm).
      specialize (IH (with_self (set_pendingQuery (Some (collect m pq)))
                        (emit (EvMessage m)
                           (with_self (set_sessionId (session_id m)) w)))
                     (collect m pq) eq_refl Hrest).
      exact IH.
    + apply (IH w pq Hpq Hnt).
Qed.

(** The pending query resolves at the first terminal event, with every
    message delivered since and the text collected from them. *)
Lemma pending_resolves (ls : list string) (line : string)
  (m : ClaudeStreamMessage) (w : World) (pq : PendingQuery) :
  pendingQuery (self w) = Some pq ->
  forallb (fun m => negb (is_terminal m)) (Claude.deliveries JSON_parse ls) = true ->
  received line = Some m ->
  type m = "result" ->
  let w' := handleLine line (fold_left (fun v l => handleLine l v) ls w) in
  let response :=
    {| sessionId := match session_id m with Some s => s | None => "" end;
       messages :=
         (pending_messages pq ++ Claude.deliveries JSON_parse ls ++ [m])%list;
       text := pending_text (collect_all (Claude.deliveries JSON_parse ls) pq);
       result := m |} in
  pendingQuery (self w') = None /\
  settled w' = (settled w ++ [(promise pq, Resolved response)])%list /\
  stdin w' = stdin w /\
  In (EvResponse response) (emitted w').
Proof.
  intros Hpq Hnt Hr Ht.
  destruct (lines_collected ls w pq Hpq Hnt) as (Hp & Hs & Hi & _ & _).
  simpl. rewrite handleLine_received, Hr.
  rewrite (handleMessage_result m _ _ Hp Ht). simpl.
  rewrite Hs, Hi.
  assert (Hmsgs : forall ms q,
             pending_messages (collect_all ms q) =
             (pending_messages q ++ ms)%list
             /\ promise (collect_all ms q) = promise q).
  { induction ms as [|x ms IHms]; intros q; simpl.
    - rewrite app_nil_r. auto.
    - destruct (IHms (collect x q)) as [E1 E2]. unfold collect_all in *.
      rewrite E1, E2. simpl. rewrite <- app_assoc. auto. }
  destruct (Hmsgs (Claude.deliveries JSON_parse ls) pq) as [E1 E2].
  rewrite E1, E2, <- app_assoc.
  repeat split; try reflexivity.
  apply in_or_app. right. left. reflexivity.
Qed.

(** *** Promise bookkeeping is preserved by every step *)

Lemma ok_same (w w' : World) :
  settled w' = settled w -> promises w' = promises w ->
  option_map promise (pendingQuery (self w')) =
  option_map promise (pendingQuery (self w)) ->
  promises_ok w -> promises_ok w'.
Proof.
  intros Hs Hp Hq [K1 K2 K3 K4].
  split; unfold is_settled in *; rewrite ?Hs, ?Hp.
  - exact K1.
  - intros pq' E. rewrite E in Hq. simpl in Hq.
    destruct (pendingQuery (self w)) as [pq|] eqn:Ew; [|discriminate].
    simpl in Hq. injection Hq as Hq. rewrite Hq. apply (K2 pq eq_refl).
  - intros q Hlt. destruct (K3 q Hlt) as [H|(pq & E & Hpq)]; [left; exact H|].
    right. rewrite E in Hq. simpl in Hq.
    destruct (pendingQuery (self w')) as [pq'|]; [|discriminate].
    simpl in Hq. injection Hq as Hq. exists pq'. split; congruence.
  - exact K4.
Qed.

Lemma ok_settle_pending (w w' : World) (pq : PendingQuery) (s : Settlement) :
  pendingQuery (self w) = Some pq ->
  settled w' = (settled w ++ [(promise pq, s)])%list ->
  promises w' = promises w ->
  pendingQuery (self w') = None ->
  promises_ok w -> promises_ok w'.
Proof.
  intros Epq Hs Hp Hq [K1 K2 K3 K4].
  destruct (K2 pq Epq) as [Hlt Hns].
  split; unfold is_settled in *; rewrite ?Hs, ?Hp, ?map_app; simpl.
  - intros q Hin. apply in_app_or in Hin as [Hin|[<-|[]]]; auto.
  - intros pq' E. congruence.
  - intros q Hq'. left. apply in_or_app.
    destruct (K3 q Hq') as [H|(pq' & E & Hpq')]; [left; exact H|].
    right. left. congruence.
  - apply NoDup_app; [exact K4|repeat constructor; intros []|].
    intros a Hin [<-|[]]. exact (Hns Hin).
Qed.

Lemma ok_fresh_settled (w w' : World) (s : Settlement) :
  settled w' = (settled w ++ [(promises w, s)])%list ->
  promises w' = S (promises w) ->
  pendingQuery (self w') = pendingQuery (self w) ->
  promises_ok w -> promises_ok w'.
Proof.
  intros Hs Hp Hq [K1 K2 K3 K4].
  split; unfold is_settled in *; rewrite ?Hs, ?Hp, ?Hq, ?map_app; simpl.
  - intros q Hin. apply in_app_or in Hin as [Hin|[<-|[]]]; [|lia].
    specialize (K1 q Hin). lia.
  - intros pq E. destruct (K2 pq E) as [Hlt Hns]. split; [lia|].
    intros Hin. apply in_app_or in Hin as [Hin|[Heq|[]]]; [auto|lia].
  - intros q Hlt. destruct (Nat.eq_dec q (promises w)) as [->|Hne].
    + left. apply in_or_app. right. left. reflexivity.
    + destruct (K3 q ltac:(lia)) as [H|H]; [left|right; exact H].
      apply in_or_app. left. exact H.
  - apply NoDup_app; [exact K4|repeat constructor; intros []|].
    intros a Hin [<-|[]]. specialize (K1 _ Hin). lia.
Qed.

Lemma ok_fresh_pending (w w' : World) (pq : PendingQuery) :
  pendingQuery (self w) = None ->
  pendingQuery (self w') = Some pq ->
  promise pq = promises w ->
  settled w' = settled w ->
  promises w' = S (promises w) ->
  promises_ok w -> promises_ok w'.
Proof.
  intros Hn Hq Hpq Hs Hp [K1 K2 K3 K4].
  split; unfold is_settled in *; rewrite ?Hs, ?Hp, ?Hq.
  - intros q Hin. specialize (K1 q Hin). lia.
  - intros pq' E. injection E as <-. rewrite Hpq. split; [lia|].
    intros Hin. specialize (K1 _ Hin). lia.
  - intros q Hlt. destruct (Nat.eq_dec q (promises w)) as [->|Hne].
    + right. exists pq. auto.
    + destruct (K3 q ltac:(lia)) as [H|(pq' & E & _)]; [left; exact H|].
      congruence.
  - exact K4.
Qed.

Lemma promises_ok_spawned : promises_ok spawned.
Proof.
  split; unfold is_settled; simpl.
  - intros q [].
  - intros pq E. discriminate.
  - intros q Hlt. lia.
  - constructor.
Qed.

Lemma promises_ok_handleMessage (m : ClaudeStreamMessage) (w : World) :
  promises_ok w -> promises_ok (handleMessage m w).
Proof.
  intros Hok. destruct (pendingQuery (self w)) as [pq|] eqn:Epq.
  - destruct (type m =? "result") eqn:Et.
    + apply String.eqb_eq in Et.
      rewrite (handleMessage_result m w pq Epq Et).
      eapply ok_settle_pending; try eassumption; reflexivity.
    + rewrite (handleMessage_collect m w pq Epq Et).
      eapply ok_same; try eassumption; try reflexivity.
      simpl. rewrite Epq. reflexivity.
  - destruct (handleMessage_idle m w Epq) as (H1 & H2 & H3).
    eapply ok_same; try eassumption. rewrite H1, Epq. reflexivity.
Qed.

Lemma promises_ok_step (w : World) (op : Op) :
  promises_ok w -> promises_ok (step w op).
Proof.
  intros Hok. destruct op as [line|prompt|code signal]; simpl.
  - rewrite handleLine_received. destruct (received line); [|exact Hok].
    apply promises_ok_handleMessage, Hok.
  - destruct (pendingQuery (self w)) as [pq|] eqn:Epq.
    + rewrite (query_pending prompt w pq Epq). simpl.
      eapply ok_fresh_settled; try eassumption; reflexivity.
    + destruct (isRunning (self w)) eqn:Er.
      * rewrite (query_running prompt w Epq Er). simpl.
        eapply ok_fresh_pending; try eassumption; reflexivity.
      * rewrite (query_not_running prompt w Epq Er). simpl.
        eapply ok_fresh_settled; try eassumption; try reflexivity.
        simpl. symmetry. exact Epq.
  - unfold onExit. simpl. destruct (pendingQuery (self w)) as [pq|] eqn:Epq.
    + eapply ok_settle_pending; try eassumption; reflexivity.
    + eapply ok_same; try eassumption; reflexivity.
Qed.

Lemma promises_ok_run (ops : list Op) :
  forall w, promises_ok w -> promises_ok (run ops w).
Proof.
  induction ops as [|op ops IH]; intros w Hok; simpl; [exact Hok|].
  apply IH, promises_ok_step, Hok.
Qed.

(** Once the process is gone and nothing is pending, it stays so and
    nothing more is written to the child. *)
Lemma gone_stays_gone (ops : list Op) :
  forall w,
  process (self w) = None -> pendingQuery (self w) = None ->
  process (self (run ops w)) = None /\
  pendingQuery (self (run ops w)) = None /\
  stdin (run ops w) = stdin w.
Proof.
  induction ops as [|op ops IH]; intros w Hp Hq; simpl; [auto|].
  assert (H : process (self (step w op)) = None /\
              pendingQuery (self (step w op)) = None /\
              stdin (step w op) = stdin w).
  { destruct op as [line|prompt|code signal]; simpl.
    - rewrite handleLine_received. destruct (received line) as [m|]; [|auto].
      rewrite handleMessage_process, handleMessage_stdin.
      destruct (handleMessage_idle m w Hq) as (H1 & _). auto.
    - rewrite (query_not_running prompt w Hq); [simpl; auto|].
      unfold isRunning. rewrite Hp. reflexivity.
    - unfold onExit. simpl. rewrite Hq. simpl. auto. }
  destruct H as (H1 & H2 & H3).
  destruct (IH (step w op) H1 H2) as (G1 & G2 & G3).
  rewrite G3, H3. auto.
Qed.

(** While no event carries a session identifier, none is latched and
    every response carries the empty string. *)
Lemma no_session_id_run (ops : list Op) :
  forall w,
  (forall line m, In (Line line) ops -> received line = Some m ->
                  session_id m = None) ->
  _sessionId (self w) = None ->
  (forall p r, In (p, Resolved r) (settled w) -> sessionId r = "") ->
  _sessionId (self (run ops w)) = None /\
  (forall p r, In (p, Resolved r) (settled (run ops w)) -> sessionId r = "").
Proof.
  induction ops as [|op ops IH]; intros w Hl Hs Hr; simpl; [auto|].
  apply IH.
  - intros line m Hin. apply Hl. right. exact Hin.
  - destruct op as [line|prompt|code signal]; simpl.
    + rewrite handleLine_received. destruct (received line) as [m|] eqn:E.
      * rewrite handleMessage_sessionId. apply (Hl line m); [left|]; auto.
      * exact Hs.
    + unfold Claude.query, writeMessage. simpl.
      destruct (pendingQuery (self w)); simpl; [exact Hs|].
      destruct (isRunning _); simpl; exact Hs.
    + unfold onExit. simpl. destruct (pendingQuery (self w)); exact Hs.
  - intros p r. destruct op as [line|prompt|code signal]; simpl.
    + rewrite handleLine_received. destruct (received line) as [m|] eqn:E.
      * destruct (pendingQuery (self w)) as [pq|] eqn:Epq.
        -- destruct (type m =? "result") eqn:Et.
           ++ apply String.eqb_eq in Et.
              rewrite (handleMessage_result m w pq Epq Et). simpl.
              intros Hin. apply in_app_or in Hin as [Hin|[Heq|[]]].
              ** apply (Hr p r Hin).
              ** injection Heq as _ <-. simpl.
                 rewrite (Hl line m); [reflexivity|left; reflexivity|exact E].
           ++ rewrite (handleMessage_collect m w pq Epq Et). simpl. apply Hr.
        -- destruct (handleMessage_idle m w Epq) as (_ & -> & _). apply Hr.
      * apply Hr.
    + unfold Claude.query, writeMessage. simpl.
      destruct (pendingQuery (self w)); simpl.
      * intros Hin. apply in_app_or in Hin as [Hin|[Heq|[]]];
          [apply (Hr p r Hin)|discriminate].
      * destruct (isRunning _); simpl; [apply Hr|].
        intros Hin. apply in_app_or in Hin as [Hin|[Heq|[]]];
          [apply (Hr p r Hin)|discriminate].
    + unfold onExit. simpl. destruct (pendingQuery (self w)); simpl; [|apply Hr].
      intros Hin. apply in_app_or in Hin as [Hin|[Heq|[]]];
        [apply (Hr p r Hin)|discriminate].
Qed.

(** *** The claims about the channel *)

(** C1 (the code departs from it).  The claim: once a session identifier
    is known, a valid event without one leaves it as it is.  The code: such
    an event sets [_sessionId] back to [null], whatever was latched. *)
Theorem event_without_session_id_unsets_it
  (line : string) (m : ClaudeStreamMessage) (w : World) (s : string) :
  _sessionId (self w) = Some s ->
  received line = Some m ->
  session_id m = None ->
  _sessionId (self (handleLine line w)) = None.
Proof.
  intros _ Hr Hm. rewrite handleLine_received, Hr, handleMessage_sessionId.
  exact Hm.
Qed.

(** C2.  A query is issued on an idle, running channel; the channel then
    receives an assistant event with the text [hel], one with [lo] and the
    event [{"type":"result","session_id":"S9"}].  The promise of the query
    resolves with text [hello], session identifier [S9] and the three
    events; nothing is pending afterwards. *)
Theorem hello_scenario_resolves (w : World) (prompt l1 l2 l3 : string) :
  pendingQuery (self w) = None ->
  isRunning (self w) = true ->
  trim_is_empty l1 = false ->
  JSON_parse l1 = inr (Examples.assistant_text "hel") ->
  trim_is_empty l2 = false ->
  JSON_parse l2 = inr (Examples.assistant_text "lo") ->
  trim_is_empty l3 = false ->
  JSON_parse l3 = inr Examples.result_S9 ->
  let p := fst (query prompt w) in
  let w' := run [Line l1; Line l2; Line l3] (snd (query prompt w)) in
  exists response,
    settled w' = (settled w ++ [(p, Resolved response)])%list /\
    text response = "hello" /\
    sessionId response = "S9" /\
    messages response =
      [Examples.assistant_message "hel"; Examples.assistant_message "lo";
       Examples.result_message (Some "S9")] /\
    In (EvResponse response) (emitted w') /\
    pendingQuery (self w') = None.
Proof.
  intros Hn Hr T1 P1 T2 P2 T3 P3.
  rewrite (query_running prompt w Hn Hr). simpl fst. simpl snd.
  set (pq := {| promise := promises w; pending_messages := [];
                pending_text := "" |}).
  set (w1 := stdin_write _ _).
  assert (R1 : received l1 = Some (Examples.assistant_message "hel"))
    by (unfold Claude.received; rewrite T1, P1; reflexivity).
  assert (R2 : received l2 = Some (Examples.assistant_message "lo"))
    by (unfold Claude.received; rewrite T2, P2; reflexivity).
  assert (R3 : received l3 = Some (Examples.result_message (Some "S9")))
    by (unfold Claude.received; rewrite T3, P3; reflexivity).
  assert (D : Claude.deliveries JSON_parse [l1; l2] =
              [Examples.assistant_message "hel"; Examples.assistant_message "lo"])
    by (simpl; rewrite R1, R2; reflexivity).
  destruct (pending_resolves [l1; l2] l3 _ w1 pq eq_refl
              ltac:(rewrite D; reflexivity) R3 eq_refl)
    as (H1 & H2 & H3 & H4).
  rewrite D in H2, H4. simpl in H1, H2, H4.
  eexists. split; [exact H2|]. simpl.
  repeat split; try reflexivity; assumption.
Qed.

(** C5.  On a channel reached from [spawned] with a query pending, a second
    [query] returns a promise rejected with "A query is already in
    progress"; the fields of the channel, the pending request among them,
    and the child's input stay as they were.  Every promise but the pending
    one is settled, so a single request is outstanding and the second one
    is not queued.  When a terminal event arrives, after any events that are
    not terminal, the first request resolves as it would have. *)
Theorem second_query_is_rejected
  (ops : list Op) (prompt : string) (pq : PendingQuery) :
  let w := run ops spawned in
  pendingQuery (self w) = Some pq ->
  let p := fst (query prompt w) in
  let w' := snd (query prompt w) in
  self w' = self w /\
  stdin w' = stdin w /\
  settled w' = (settled w ++ [(p, Rejected in_progress)])%list /\
  p <> promise pq /\
  ~ is_settled (promise pq) w' /\
  (forall q, q < promises w' -> q <> promise pq -> is_settled q w') /\
  (forall ls line m,
     forallb (fun x => negb (is_terminal x)) (Claude.deliveries JSON_parse ls)
       = true ->
     received line = Some m ->
     type m = "result" ->
     let w'' := handleLine line (fold_left (fun v l => handleLine l v) ls w') in
     pendingQuery (self w'') = None /\
     settled w'' =
       (settled w' ++
        [(promise pq,
          Resolved
            {| sessionId := match session_id m with Some x => x | None => "" end;
               messages :=
                 (pending_messages pq ++ Claude.deliveries JSON_parse ls ++ [m])%list;
               text :=
                 pending_text (collect_all (Claude.deliveries JSON_parse ls) pq);
               result := m |})])%list).
Proof.
  intros w Hpq p w'.
  assert (Hok : promises_ok w)
    by (apply promises_ok_run, promises_ok_spawned).
  assert (Hok' : promises_ok w')
    by (apply (promises_ok_step w (Query prompt)), Hok).
  subst p w'. rewrite (query_pending prompt w pq Hpq) in *. simpl fst in *.
  simpl snd in *.
  set (w' := settle _ _ _) in *.
  assert (Hself : self w' = self w) by reflexivity.
  assert (Hpq' : pendingQuery (self w') = Some pq) by exact Hpq.
  destruct (pending_known w Hok pq Hpq) as [Hlt Hns].
  destruct (pending_known w' Hok' pq Hpq') as [Hlt' Hns'].
  repeat split; try reflexivity.
  - lia.
  - exact Hns'.
  - intros q Hq Hne.
    destruct (others_settled w' Hok' q Hq) as [H|(pq' & E & Hq')]; [exact H|].
    rewrite Hpq' in E. injection E as <-. congruence.
  - destruct (pending_resolves ls line m w' pq Hpq' H H0 H1) as (G & _).
    exact G.
  - destruct (pending_resolves ls line m w' pq Hpq' H H0 H1) as (_ & G & _).
    exact G.
Qed.

(** C6.  When the process exits with a query pending, the promise of that
    query is rejected with "Process exited with code " followed by the code,
    and the slot is cleared.  Whatever happens to the channel afterwards, a
    [query] is rejected with the not-running error and the child's input
    has received nothing since before the exit. *)
Theorem exit_rejects_pending_query
  (w : World) (pq : PendingQuery) (code : option Z) (signal : option string) :
  pendingQuery (self w) = Some pq ->
  let w1 := onExit code signal w in
  settled w1 =
    (settled w ++
     [(promise pq,
       Rejected (mkError ("Process exited with code " ++ show_code code)))])%list /\
  pendingQuery (self w1) = None /\
  (forall ops prompt,
     let w2 := run ops w1 in
     settled (snd (query prompt w2)) =
       (settled w2 ++ [(fst (query prompt w2), Rejected not_running)])%list /\
     pendingQuery (self (snd (query prompt w2))) = None /\
     stdin (snd (query prompt w2)) = stdin w).
Proof.
  intros Hpq w1.
  assert (E1 : process (self w1) = None)
    by (subst w1; unfold onExit; simpl; rewrite Hpq; reflexivity).
  assert (E2 : pendingQuery (self w1) = None)
    by (subst w1; unfold onExit; simpl; rewrite Hpq; reflexivity).
  assert (E3 : stdin w1 = stdin w)
    by (subst w1; unfold onExit; simpl; rewrite Hpq; reflexivity).
  split; [subst w1; unfold onExit; simpl; rewrite Hpq; reflexivity|].
  split; [exact E2|].
  intros ops prompt w2.
  destruct (gone_stays_gone ops w1 E1 E2) as (G1 & G2 & G3).
  fold w2 in G1, G2, G3.
  rewrite (query_not_running prompt w2 G2);
    [|unfold isRunning; rewrite G1; reflexivity].
  simpl. rewrite G3, E3. auto.
Qed.

(** C9.  [query] on a channel that is not running and has nothing pending:
    the promise is rejected with the not-running error, nothing is written,
    and the fields of the channel are what they were, the pending slot
    empty; so the next [query] is rejected with the not-running error
    again, not with the in-progress one. *)
Theorem query_on_stopped_channel_rejects (w : World) (prompt : string) :
  isRunning (self w) = false ->
  pendingQuery (self w) = None ->
  let p := fst (query prompt w) in
  let w' := snd (query prompt w) in
  settled w' = (settled w ++ [(p, Rejected not_running)])%list /\
  self w' = self w /\
  pendingQuery (self w') = None /\
  stdin w' = stdin w /\
  (forall prompt',
     settled (snd (query prompt' w')) =
       (settled w' ++ [(fst (query prompt' w'), Rejected not_running)])%list).
Proof.
  intros Hr Hq p w'. subst p w'.
  rewrite (query_not_running prompt w Hq Hr). simpl fst. simpl snd.
  set (w' := settle _ _ _).
  assert (Hself : self w' = self w).
  { subst w'. simpl. destruct (self w) as [cp sid q]. simpl in Hq.
    rewrite Hq. reflexivity. }
  repeat split; try reflexivity; try exact Hself.
  intros prompt'.
  rewrite (query_not_running prompt' w'); [reflexivity|reflexivity|].
  rewrite Hself. exact Hr.
Qed.

(** C10.  On a channel run from [spawned], when no valid event received
    carries a session identifier, every response a query resolves with has
    the empty string as its [sessionId]. *)
Theorem response_session_id_empty_without_ids
  (ops : list Op) (p : nat) (r : ClaudeResponse) :
  (forall line m, In (Line line) ops -> received line = Some m ->
                  session_id m = None) ->
  In (p, Resolved r) (settled (run ops spawned)) ->
  sessionId r = "".
Proof.
  intros Hl Hin.
  destruct (no_session_id_run ops spawned Hl eq_refl) as [_ H].
  - intros q x [].
  - exact (H p r Hin).
Qed.

End ClaudeProperties.

(** * Properties of line framing *)

Lemma append_nil_r (s : string) : s ++ "" = s.
Proof. induction s as [|c s IH]; simpl; [reflexivity|now rewrite IH]. Qed.

Lemma append_assoc (s t u : string) : (s ++ t) ++ u = s ++ t ++ u.
Proof. induction s as [|c s IH]; simpl; [reflexivity|now rewrite IH]. Qed.

Lemma length_append (s t : string) :
  String.length (s ++ t) = String.length s + String.length t.
Proof. induction s as [|c s IH]; simpl; [reflexivity|now rewrite IH]. Qed.

Lemma createReadStream_0 (file : string) : createReadStream file 0 = file.
Proof. destruct file; reflexivity. Qed.

Lemma createReadStream_append (s t : string) :
  createReadStream (s ++ t) (String.length s) = t.
Proof.
  induction s as [|c s IH]; simpl; [apply createReadStream_0|exact IH].
Qed.

Lemma ends_line_cons (c : ascii) (s : string) :
  s <> "" -> ends_line (String c s) = ends_line s.
Proof. destruct s; [congruence|reflexivity]. Qed.

Lemma ends_line_append_LF (s : string) : ends_line (s ++ String LF "") = true.
Proof.
  induction s as [|c s IH]; [reflexivity|].
  simpl append. rewrite ends_line_cons; [exact IH|].
  destruct s; discriminate.
Qed.

(** Reading on after a complete line starts afresh. *)
Lemma readline_from_append (s : string) :
  forall (saw : bool) (buffer t : string),
  s <> "" -> ends_line s = true ->
  readline_from saw buffer (s ++ t) =
  (readline_from saw buffer s ++ readline_from false "" t)%list.
Proof.
  induction s as [|c s IH]; intros saw buffer t Hne He; [congruence|].
  destruct s as [|d s].
  - simpl in He. simpl. rewrite He. destruct saw; reflexivity.
  - rewrite ends_line_cons in He by discriminate.
    assert (Hd : String d s <> "") by discriminate.
    change (String c (String d s) ++ t) with (String c (String d s ++ t)).
    cbn [readline_from].
    destruct (Ascii.eqb c LF).
    + destruct saw; [apply IH; assumption|].
      rewrite IH by assumption. reflexivity.
    + destruct (Ascii.eqb c CR).
      * rewrite IH by assumption. reflexivity.
      * apply IH; assumption.
Qed.

Lemma readline_append (s t : string) :
  ends_line s = true -> readline (s ++ t) = (readline s ++ readline t)%list.
Proof.
  intros He. destruct s as [|c s]; [reflexivity|].
  apply readline_from_append; [discriminate|exact He].
Qed.

(** A line without breaks, then LF, is read as that line. *)
Lemma readline_from_line (l : string) :
  forall (buffer t : string),
  no_breaks l = true ->
  readline_from false buffer (l ++ String LF t) =
  (buffer ++ l) :: readline_from false "" t.
Proof.
  induction l as [|c l IH]; intros buffer t Hn.
  - simpl. rewrite append_nil_r. reflexivity.
  - simpl in Hn. apply andb_true_iff in Hn as [Hc Hl].
    apply andb_true_iff in Hc as [H1 H2].
    apply negb_true_iff in H1, H2.
    simpl. rewrite H1, H2, (IH _ _ Hl), append_assoc. reflexivity.
Qed.

Lemma concat_cons (x : string) (xs : list string) :
  String.concat "" (x :: xs) = x ++ String.concat "" xs.
Proof. destruct xs; simpl; [now rewrite append_nil_r|reflexivity]. Qed.

Lemma readline_lines (ls : list string) :
  Forall (fun l => no_breaks l = true) ls ->
  readline (String.concat "" (map (fun l => l ++ String LF "") ls)) = ls.
Proof.
  induction 1 as [|l ls Hl _ IH]; [reflexivity|].
  simpl map.
  rewrite concat_cons, append_assoc. simpl append. unfold readline in *.
  rewrite (readline_from_line l "" _ Hl), IH. reflexivity.
Qed.

(** * Properties of the conversation log *)

Section ConversationProperties.

Import Conversation.

Variable JSON_parse : string -> Error + json.
Variable MessageSchema_safeParse : json -> option Message.
Variable JSON_stringify : Message -> string.

Local Abbreviation processObject :=
  (Conversation.processObject MessageSchema_safeParse).
Local Abbreviation load_line :=
  (Conversation.load_line JSON_parse MessageSchema_safeParse).
Local Abbreviation JsonlFile_load :=
  (Conversation.JsonlFile_load JSON_parse MessageSchema_safeParse).
Local Abbreviation load := (Conversation.load JSON_parse MessageSchema_safeParse).
Local Abbreviation create :=
  (Conversation.create JSON_parse MessageSchema_safeParse).
Local Abbreviation loadNewMessages :=
  (Conversation.loadNewMessages JSON_parse MessageSchema_safeParse).
Local Abbreviation deleteMessage := (Conversation.deleteMessage JSON_stringify).
Local Abbreviation parseFull :=
  (Conversation.parseFull JSON_parse MessageSchema_safeParse).
Local Abbreviation decode :=
  (Conversation.decode JSON_parse MessageSchema_safeParse).
Local Abbreviation records :=
  (Conversation.records JSON_parse MessageSchema_safeParse).
Local Abbreviation parse_errors := (Conversation.parse_errors JSON_parse).
Local Abbreviation run := (Conversation.run JSON_parse MessageSchema_safeParse).
Local Abbreviation reads_back :=
  (Conversation.reads_back JSON_parse MessageSchema_safeParse JSON_stringify).
Local Abbreviation in_step :=
  (Conversation.in_step JSON_parse MessageSchema_safeParse).

(** One line adds the record it holds, if any, and touches neither the
    file nor the cursor. *)
Lemma load_line_frame (w : World) (line : string) :
  messages (self (load_line w line)) =
    (messages (self w) ++
     match decode line with Some m => [m] | None => [] end)%list /\
  file (load_line w line) = file w /\
  byteOffset (self (load_line w line)) = byteOffset (self w) /\
  emitNewMessages (self (load_line w line)) = emitNewMessages (self w).
Proof.
  unfold Conversation.load_line, Conversation.decode,
    Conversation.processObject.
  destruct (JSON_parse line) as [e|obj]; simpl.
  - rewrite app_nil_r. auto.
  - destruct (MessageSchema_safeParse obj) as [data|]; simpl.
    + destruct (_sessionId (self w)), data; simpl;
        destruct (emitNewMessages (self w)) eqn:E; simpl; auto.
    + rewrite app_nil_r. auto.
Qed.

Lemma load_lines_frame (ls : list string) :
  forall w,
  let w' := fold_left load_line ls w in
  messages (self w') = (messages (self w) ++ records ls)%list /\
  file w' = file w /\
  byteOffset (self w') = byteOffset (self w) /\
  emitNewMessages (self w') = emitNewMessages (self w).
Proof.
  induction ls as [|l ls IH]; intros w; simpl.
  - rewrite app_nil_r. auto.
  - destruct (load_line_frame w l) as (H1 & H2 & H3 & H4).
    destruct (IH (load_line w l)) as (G1 & G2 & G3 & G4).
    rewrite G1, G2, G3, G4, H1, H2, H3, H4, <- app_assoc.
    destruct (decode l); simpl; auto.
Qed.

(** With [emitNewMessages] off, the events of a pass are its parse
    errors. *)
Lemma load_lines_emitted (ls : list string) :
  forall w,
  emitNewMessages (self w) = false ->
  emitted (fold_left load_line ls w) = (emitted w ++ parse_errors ls)%list.
Proof.
  induction ls as [|l ls IH]; intros w Hoff; simpl.
  - rewrite app_nil_r. reflexivity.
  - destruct (load_line_frame w l) as (_ & _ & _ & H4).
    rewrite IH by (rewrite H4; exact Hoff).
    unfold Conversation.load_line, Conversation.processObject.
    destruct (JSON_parse l) as [e|obj]; simpl.
    + rewrite <- app_assoc. reflexivity.
    + destruct (MessageSchema_safeParse obj) as [data|]; simpl; [|reflexivity].
      destruct (_sessionId (self w)), data; simpl; rewrite Hoff; reflexivity.
Qed.

Lemma records_app (l1 l2 : list string) :
  records (l1 ++ l2) = (records l1 ++ records l2)%list.
Proof.
  induction l1 as [|l l1 IH]; simpl; [reflexivity|].
  destruct (decode l); simpl; rewrite IH; reflexivity.
Qed.

(** A full parse: the records of the lines of the file, the cursor at its
    end, the parse errors as events. *)
Lemma create_spec (content : string) :
  messages (self (create content)) = records (readline content) /\
  byteOffset (self (create content)) = String.length content /\
  file (create content) = content /\
  emitted (create content) = parse_errors (readline content).
Proof.
  unfold Conversation.create, Conversation.load, Conversation.JsonlFile_load,
    getFileSize.
  simpl. rewrite createReadStream_0.
  set (w1 := with_self _ (constructed content)).
  destruct (load_lines_frame (readline content) w1) as (H1 & H2 & H3 & H4).
  rewrite H1, H2. simpl.
  rewrite (load_lines_emitted (readline content) w1 eq_refl). auto.
Qed.

Lemma parseFull_records (content : string) :
  parseFull content = records (readline content).
Proof. apply create_spec. Qed.

(** A refresh: nothing when the file is no longer than the cursor;
    otherwise the records of the lines from the cursor on. *)
Lemma loadNewMessages_spec (w : World) :
  if Nat.leb (String.length (file w)) (byteOffset (self w))
  then loadNewMessages w = w
  else
    messages (self (loadNewMessages w)) =
      (messages (self w) ++
       records (readline (createReadStream (file w) (byteOffset (self w)))))%list /\
    byteOffset (self (loadNewMessages w)) = String.length (file w) /\
    file (loadNewMessages w) = file w.
Proof.
  unfold Conversation.loadNewMessages, getFileSize.
  destruct (Nat.leb _ _); [reflexivity|].
  unfold Conversation.JsonlFile_load. simpl.
  set (w1 := with_self _ w).
  destruct (load_lines_frame
              (readline (createReadStream (file w) (byteOffset (self w)))) w1)
    as (H1 & H2 & H3 & H4).
  rewrite H1, H2. auto.
Qed.

(** A line that is not JSON is reported once, and the records of the
    lines around it are kept, in order. *)
Lemma invalid_line_between (before after : list string) (bad : string)
  (e : Error) :
  JSON_parse bad = inl e ->
  records (before ++ bad :: after) = (records before ++ records after)%list /\
  parse_errors (before ++ bad :: after) =
    (parse_errors before ++ EvParseError bad e :: parse_errors after)%list.
Proof.
  intros Hbad. split.
  - rewrite records_app. simpl. unfold Conversation.decode. rewrite Hbad.
    reflexivity.
  - induction before as [|l before IH]; simpl.
    + rewrite Hbad. reflexivity.
    + destruct (JSON_parse l); rewrite IH; reflexivity.
Qed.

Lemma leb_length_append (s t : string) :
  Nat.leb (String.length (s ++ t)) (String.length s) = true -> t = "".
Proof.
  rewrite length_append. intros H. apply Nat.leb_le in H.
  destruct t; [reflexivity|simpl in H; lia].
Qed.

Lemma loadNewMessages_in_step (w : World) (consumed pending : string) :
  in_step w consumed pending ->
  messages (self (loadNewMessages w)) = records (readline (file w)) /\
  byteOffset (self (loadNewMessages w)) = String.length (file w) /\
  file (loadNewMessages w) = file w.
Proof.
  intros (Hf & Hb & He & Hm).
  pose proof (loadNewMessages_spec w) as Hs.
  rewrite Hf, Hb in Hs.
  destruct (Nat.leb _ _) eqn:El.
  - apply leb_length_append in El. subst pending.
    rewrite append_nil_r in Hf. rewrite Hs, Hm, Hb, Hf. auto.
  - rewrite createReadStream_append in Hs. destruct Hs as (H1 & H2 & H3).
    rewrite H1, H2, H3, Hm, Hf, (readline_append _ _ He), records_app. auto.
Qed.

Lemma run_in_step (ops : list Op) :
  forall w consumed pending,
  in_step w consumed pending ->
  whole_lines_from (file w) ops = true ->
  exists consumed' pending', in_step (run ops w) consumed' pending'.
Proof.
  induction ops as [|op ops IH]; intros w consumed pending Hin Hw.
  - exists consumed, pending. exact Hin.
  - destruct op as [bytes|]; simpl in Hw |- *.
    + apply (IH _ consumed (pending ++ bytes)); [|exact Hw].
      destruct Hin as (Hf & Hb & He & Hm).
      unfold Conversation.in_step. simpl. rewrite Hf, append_assoc. auto.
    + apply andb_true_iff in Hw as [He Hw].
      destruct (loadNewMessages_in_step w consumed pending Hin)
        as (H1 & H2 & H3).
      apply (IH _ (file w) ""); [|rewrite H3; exact Hw].
      unfold Conversation.in_step. rewrite H1, H2, H3, append_nil_r. auto.
Qed.

Lemma log_run_app (ops1 ops2 : list Op) (w : World) :
  run (ops1 ++ ops2) w = run ops2 (run ops1 w).
Proof. unfold Conversation.run. apply fold_left_app. Qed.

(** *** The claims about the log *)

(** C3 (amended).  A refresh right after a full parse changes nothing.
    When the file is empty or ends with LF at the full parse and at every
    refresh but the last, then after the appends and refreshes and a last
    refresh the records in memory are those of a full parse of the file,
    in the same order, and the cursor is at its end. *)
Theorem refresh_converges_on_whole_lines :
  (forall content, loadNewMessages (create content) = create content) /\
  (forall content ops,
     whole_lines content ops = true ->
     let w := run (ops ++ [Refresh]) (create content) in
     messages (self w) = parseFull (file w) /\
     byteOffset (self w) = String.length (file w)).
Proof.
  split.
  - intros content. pose proof (loadNewMessages_spec (create content)) as Hs.
    destruct (create_spec content) as (_ & Hb & Hf & _).
    rewrite Hb, Hf, Nat.leb_refl in Hs. exact Hs.
  - intros content ops Hw w. subst w.
    apply andb_true_iff in Hw as [He Hw].
    destruct (create_spec content) as (Hm & Hb & Hf & _).
    destruct (run_in_step ops (create content) content "") as (c & t & Hin).
    + unfold Conversation.in_step. rewrite Hf, append_nil_r. auto.
    + rewrite Hf. exact Hw.
    + rewrite log_run_app. simpl.
      destruct (loadNewMessages_in_step _ c t Hin) as (H1 & H2 & H3).
      rewrite H1, H2, H3, parseFull_records. auto.
Qed.

(** C4 (the code departs from it).  The claim: an empty or
    whitespace-only line is skipped without an error signal.  The code: a
    file made of such a line yields no record and one [parseError] event
    carrying the line, as for any line [JSON.parse] refuses. *)
Theorem blank_line_is_reported (line : string) (e : Error) :
  trim_is_empty line = true ->
  no_breaks line = true ->
  JSON_parse line = inl e ->
  emitted (create (line ++ String LF "")) = [EvParseError line e] /\
  messages (self (create (line ++ String LF ""))) = [].
Proof.
  intros _ Hn He.
  destruct (create_spec (line ++ String LF "")) as (Hm & _ & _ & Hev).
  rewrite Hm, Hev. unfold readline.
  rewrite (readline_from_line line "" "" Hn). simpl.
  unfold Conversation.decode. rewrite He. auto.
Qed.

(** *** Deleting a record *)

Lemma findIndex_none {A} (p : A -> bool) (l : list A) :
  (forall x, In x l -> p x = false) -> findIndex p l = None.
Proof.
  induction l as [|x l IH]; intros H; simpl; [reflexivity|].
  rewrite (H x (or_introl eq_refl)), IH; [reflexivity|].
  intros y Hy. apply H. right. exact Hy.
Qed.

(** [findIndex] stops at the first match, and [splice1] removes it. *)
Lemma findIndex_some {A} (p : A -> bool) (l : list A) (i : nat) :
  findIndex p l = Some i ->
  exists before x after,
    l = (before ++ x :: after)%list /\ p x = true /\
    forallb (fun y => negb (p y)) before = true /\
    splice1 i l = (before ++ after)%list.
Proof.
  revert i. induction l as [|x l IH]; intros i H; simpl in H; [discriminate|].
  destruct (p x) eqn:Ex.
  - injection H as <-. exists [], x, l. simpl. auto.
  - destruct (findIndex p l) as [j|]; [|discriminate]. injection H as <-.
    destruct (IH j eq_refl) as (b & y & a & -> & Hy & Hb & Hs).
    exists (x :: b), y, a. simpl. rewrite Ex, Hb, Hs. auto.
Qed.

Lemma findIndex_found {A} (p : A -> bool) (l : list A) :
  (exists x, In x l /\ p x = true) -> exists i, findIndex p l = Some i.
Proof.
  intros (x & Hin & Hx). destruct (findIndex p l) as [i|] eqn:E; [eauto|].
  exfalso. revert E. induction l as [|y l IH]; simpl; [destruct Hin|].
  destruct (p y) eqn:Ey; [discriminate|].
  destruct Hin as [->|Hin]; [congruence|].
  destruct (findIndex p l); [discriminate|]. intros _. apply IH; auto.
Qed.

Lemma append_not_empty (s t : string) : s <> "" -> s ++ t <> "".
Proof. destruct s; [congruence|discriminate]. Qed.

Lemma join_not_empty (sep l : string) (ls : list string) :
  l <> "" -> join sep (l :: ls) <> "".
Proof.
  intros H. destruct ls; simpl; [exact H|]. apply append_not_empty, H.
Qed.

(** Joining with LF and ending with LF is ending every line with LF. *)
Lemma join_terminated (l : string) (ls : list string) :
  join (String LF "") (l :: ls) ++ String LF "" =
  String.concat "" (map (fun x => x ++ String LF "") (l :: ls)).
Proof.
  revert l. induction ls as [|y ls IH]; intros l.
  - reflexivity.
  - change (join (String LF "") (l :: y :: ls))
      with (l ++ String LF "" ++ join (String LF "") (y :: ls)).
    rewrite !append_assoc, IH.
    change (map (fun x => x ++ String LF "") (l :: y :: ls))
      with ((l ++ String LF "") :: map (fun x => x ++ String LF "") (y :: ls)).
    rewrite concat_cons, append_assoc. reflexivity.
Qed.

(** What [deleteMessage] writes for the records [msgs]. *)
Lemma written_reads_back (msgs : list Message) :
  (forall m, In m msgs -> reads_back m) ->
  let content := join (String LF "") (map JSON_stringify msgs) in
  parseFull (if content =? "" then "" else content ++ String LF "") = msgs.
Proof.
  intros Hrb content. subst content. rewrite parseFull_records.
  destruct msgs as [|m msgs]; [reflexivity|].
  simpl map.
  destruct (Hrb m (or_introl eq_refl)) as (Hne & _ & _).
  destruct (String.eqb_spec (join (String LF "")
                               (JSON_stringify m :: map JSON_stringify msgs)) "")
    as [E|_].
  - exfalso. exact (join_not_empty _ _ _ Hne E).
  - rewrite join_terminated.
    change (JSON_stringify m :: map JSON_stringify msgs)
      with (map JSON_stringify (m :: msgs)).
    rewrite readline_lines.
    + induction (m :: msgs) as [|x xs IH]; [reflexivity|].
      simpl. destruct (Hrb x (or_introl eq_refl)) as (_ & _ & ->).
      rewrite IH; [reflexivity|]. intros y Hy. apply Hrb. right. exact Hy.
    + apply Forall_forall. intros l Hl. apply in_map_iff in Hl as (x & <- & Hx).
      apply (Hrb x Hx).
Qed.

(** C7.  With the records in memory such that each serialises to one line
    that reads back as itself: [deleteMessage] of an identifier no record
    has returns [false] and leaves the world, the file with it, as it was;
    for an identifier some record has (a snapshot by [messageId], a turn by
    [uuid]) it returns [true] and removes the first such record, and both
    the records in memory and a full parse of the rewritten file are the
    former records without it, in order. *)
Theorem deleteMessage_removes_one_record (w : World) (id : string) :
  (forall m, In m (messages (self w)) -> reads_back m) ->
  ((forall m, In m (messages (self w)) -> has_id id m = false) ->
   deleteMessage id w = (false, w)) /\
  ((exists m, In m (messages (self w)) /\ has_id id m = true) ->
   exists before x after,
     messages (self w) = (before ++ x :: after)%list /\
     has_id id x = true /\
     forallb (fun y => negb (has_id id y)) before = true /\
     fst (deleteMessage id w) = true /\
     messages (self (snd (deleteMessage id w))) = (before ++ after)%list /\
     parseFull (file (snd (deleteMessage id w))) = (before ++ after)%list).
Proof.
  intros Hrb. split.
  - intros Hno. unfold Conversation.deleteMessage.
    rewrite (findIndex_none _ _ Hno). reflexivity.
  - intros Hsome. destruct (findIndex_found _ _ Hsome) as [i Hi].
    destruct (findIndex_some _ _ _ Hi) as (b & x & a & Hl & Hx & Hb & Hs).
    exists b, x, a. unfold Conversation.deleteMessage. rewrite Hi. simpl.
    rewrite Hs. repeat split; try assumption.
    apply written_reads_back. intros m Hm. apply Hrb. rewrite Hl.
    apply in_app_or in Hm as [Hm|Hm]; apply in_or_app; [left|right; right];
      exact Hm.
Qed.

(** C8 (amended).  After a [deleteMessage] that returned [true] the file
    is empty when the LF-joined serialisation of the remaining records is
    empty, as when none remains, and is that serialisation followed by one
    LF otherwise; the cursor is the length of the file.  A refresh without
    an append changes nothing, and a refresh after an append adds the
    records of the appended bytes and moves the cursor to the new end. *)
Theorem deleteMessage_rewrites_file (w : World) (id : string) :
  fst (deleteMessage id w) = true ->
  let w' := snd (deleteMessage id w) in
  let content := join (String LF "") (map JSON_stringify (messages (self w'))) in
  file w' = (if content =? "" then "" else content ++ String LF "") /\
  (messages (self w') = [] -> file w' = "") /\
  byteOffset (self w') = String.length (file w') /\
  loadNewMessages w' = w' /\
  (forall bytes,
     let w'' := loadNewMessages (writeFile (file w' ++ bytes) w') in
     messages (self w'') = (messages (self w') ++ records (readline bytes))%list /\
     byteOffset (self w'') = String.length (file w'')).
Proof.
  unfold Conversation.deleteMessage.
  destruct (findIndex (has_id id) (messages (self w))) as [i|];
    [|discriminate].
  intros _. simpl.
  set (msgs := splice1 i (messages (self w))).
  set (written := if join (String LF "") (map JSON_stringify msgs) =? ""
                  then "" else join (String LF "") (map JSON_stringify msgs)
                               ++ String LF "").
  set (w' := with_self (set_byteOffset (String.length written)) _).
  assert (Hf : file w' = written) by reflexivity.
  assert (Hb : byteOffset (self w') = String.length written) by reflexivity.
  assert (Hm : messages (self w') = msgs) by reflexivity.
  split; [reflexivity|]. split.
  { intros E. subst written. rewrite E. reflexivity. }
  split; [reflexivity|]. split.
  { pose proof (loadNewMessages_spec w') as Hs.
    rewrite Hf, Hb, Nat.leb_refl in Hs. exact Hs. }
  intros bytes.
  pose proof (loadNewMessages_spec (writeFile (written ++ bytes) w')) as Hs.
  simpl file in Hs. simpl byteOffset in Hs.
  destruct (Nat.leb _ _) eqn:El.
  - apply leb_length_append in El. subst bytes.
    rewrite Hs. simpl. rewrite app_nil_r, append_nil_r. auto.
  - rewrite createReadStream_append in Hs. destruct Hs as (H1 & H2 & H3).
    rewrite H1, H2, H3. auto.
Qed.

End ConversationProperties.

(** * The theorems at sample inputs *)

Section Instances.

Import Schemas Examples.

Local Abbreviation line_of := Sample.stringify.
Local Abbreviation handleLine := (Claude.handleLine Sample.parse).
Local Abbreviation query := (Claude.query Sample.stringify).
Local Abbreviation run_channel := (Claude.run Sample.parse Sample.stringify).
Local Abbreviation create :=
  (Conversation.create Sample.parse Sample.MessageSchema).
Local Abbreviation run_log :=
  (Conversation.run Sample.parse Sample.MessageSchema).
Local Abbreviation parseFull :=
  (Conversation.parseFull Sample.parse Sample.MessageSchema).
Local Abbreviation deleteMessage :=
  (Conversation.deleteMessage Sample.stringify_message).

(** C1 at an input: [S1] is latched from a [system] event and lost at the
    next event, which has no [session_id]. *)
Lemma session_id_lost_after_plain_event :
  let w := handleLine (line_of system_S1) Claude.spawned in
  Claude._sessionId (Claude.self w) = Some "S1" /\
  Claude._sessionId
    (Claude.self (handleLine (line_of (assistant_text "hel")) w)) = None.
Proof.
  split; [reflexivity|].
  apply (event_without_session_id_unsets_it Sample.parse
           (line_of (assistant_text "hel")) (assistant_message "hel") _ "S1");
    reflexivity.
Defined.

(** C2 at an input: the three events as lines of JSON text. *)
Lemma hello_scenario_on_spawned_channel :
  let q := query "Say hello" Claude.spawned in
  let w' :=
    run_channel
      [Claude.Line (line_of (assistant_text "hel"));
       Claude.Line (line_of (assistant_text "lo"));
       Claude.Line (line_of result_S9)] (snd q) in
  exists response,
    Claude.settled w' = [(fst q, Claude.Resolved response)] /\
    text response = "hello" /\
    sessionId response = "S9" /\
    messages response =
      [assistant_message "hel"; assistant_message "lo";
       result_message (Some "S9")] /\
    In (Claude.EvResponse response) (Claude.emitted w') /\
    Claude.pendingQuery (Claude.self w') = None.
Proof.
  apply (hello_scenario_resolves Sample.parse Sample.stringify Claude.spawned
           "Say hello" (line_of (assistant_text "hel"))
           (line_of (assistant_text "lo")) (line_of result_S9));
    reflexivity.
Defined.

(** C5 at an input: a second query right after the first. *)
Lemma second_query_after_first :
  let w := run_channel [Claude.Query "first"] Claude.spawned in
  Claude.self (snd (query "second" w)) = Claude.self w /\
  Claude.settled (snd (query "second" w)) =
    [(1, Claude.Rejected Claude.in_progress)].
Proof.
  pose proof (second_query_is_rejected Sample.parse Sample.stringify
                [Claude.Query "first"] "second"
                {| Claude.promise := 0; Claude.pending_messages := [];
                   Claude.pending_text := "" |} eq_refl)
    as (H1 & _ & H3 & _).
  split; [exact H1|exact H3].
Defined.

(** C6 at an input: the process exits with code 1 while a query is
    pending. *)
Lemma exit_with_code_1 :
  let w := snd (query "first" Claude.spawned) in
  Claude.settled (Claude.onExit (Some 1%Z) None w) =
    [(0, Claude.Rejected (mkError "Process exited with code 1"))].
Proof.
  exact (proj1 (exit_rejects_pending_query Sample.parse Sample.stringify
                  (snd (query "first" Claude.spawned))
                  {| Claude.promise := 0; Claude.pending_messages := [];
                     Claude.pending_text := "" |} (Some 1%Z) None eq_refl)).
Defined.

(** C9 at an input: a query on a channel that was never started. *)
Lemma query_before_start :
  Claude.settled (snd (query "hi" Claude.constructed)) =
    [(0, Claude.Rejected Claude.not_running)] /\
  Claude.self (snd (query "hi" Claude.constructed)) =
    Claude.self Claude.constructed.
Proof.
  pose proof (query_on_stopped_channel_rejects Sample.stringify
                Claude.constructed "hi" eq_refl eq_refl) as (H1 & H2 & _).
  split; [exact H1|exact H2].
Defined.

(** C10 at an input: no event of the run has a [session_id]. *)
Lemma plain_response_has_empty_session_id :
  In (0, Claude.Resolved plain_response)
    (Claude.settled
       (run_channel
          [Claude.Query "hi"; Claude.Line (line_of (assistant_text "hel"));
           Claude.Line (line_of result_plain)] Claude.spawned)) /\
  sessionId plain_response = "".
Proof.
  assert (Hin : In (0, Claude.Resolved plain_response)
                  (Claude.settled
                     (run_channel
                        [Claude.Query "hi";
                         Claude.Line (line_of (assistant_text "hel"));
                         Claude.Line (line_of result_plain)] Claude.spawned)))
    by (left; reflexivity).
  split; [exact Hin|].
  refine (response_session_id_empty_without_ids Sample.parse Sample.stringify
            _ 0 plain_response _ Hin).
  intros line m [H|[H|[H|[]]]]; try discriminate;
    injection H as <-; intros E; injection E as <-; reflexivity.
Defined.

(** C3, the claim as stated, fails: the writer appends a line in two
    parts and a refresh falls in between.  Neither part is a record, so
    nothing is in memory after the last refresh, while a full parse of the
    file finds the record. *)
Lemma partial_line_is_lost :
  let w := run_log partial_appends (create "") in
  Conversation.file w = user_line ++ newline /\
  Conversation.messages (Conversation.self w) = [] /\
  Conversation.messages (Conversation.self w) <>
    parseFull (Conversation.file w).
Proof.
  split; [vm_compute; reflexivity|].
  split; [vm_compute; reflexivity|].
  vm_compute. discriminate.
Qed.

(** C3 at an input: whole lines, appended around a refresh. *)
Lemma whole_lines_converge :
  let w := run_log (whole_appends ++ [Conversation.Refresh]) (create "") in
  Conversation.messages (Conversation.self w) =
    parseFull (Conversation.file w) /\
  Conversation.byteOffset (Conversation.self w) =
    String.length (Conversation.file w).
Proof.
  exact (proj2 (refresh_converges_on_whole_lines Sample.parse
                  Sample.MessageSchema) "" whole_appends eq_refl).
Defined.

(** C4 at an input: a file that is one empty line. *)
Lemma empty_line_is_reported :
  Conversation.emitted (create (String LF "")) =
    [Conversation.EvParseError ""
       (mkError "Unexpected token or end of JSON input")] /\
  Conversation.messages (Conversation.self (create (String LF ""))) = [].
Proof.
  exact (blank_line_is_reported Sample.parse Sample.MessageSchema ""
           (mkError "Unexpected token or end of JSON input")
           eq_refl eq_refl eq_refl).
Defined.

(** The same between two records: both are kept, and the empty line is
    reported. *)
Lemma empty_line_between_records :
  let w := create (user_line ++ newline ++ newline
                   ++ assistant_line ++ newline) in
  Conversation.emitted w =
    [Conversation.EvParseError ""
       (mkError "Unexpected token or end of JSON input")] /\
  List.length (Conversation.messages (Conversation.self w)) = 2.
Proof. vm_compute. split; reflexivity. Qed.

Lemma three_records_read_back (m : Conversation.Message) :
  In m (Conversation.messages (Conversation.self (create three_records))) ->
  Conversation.reads_back Sample.parse Sample.MessageSchema
    Sample.stringify_message m.
Proof.
  intros Hin. vm_compute in Hin.
  destruct Hin as [<-|[<-|[<-|[]]]];
    (split; [vm_compute; discriminate|split; vm_compute; reflexivity]).
Defined.

(** C7 at an input: the assistant turn is deleted from a log of three
    records. *)
Lemma delete_assistant_turn :
  let w := create three_records in
  exists before x after,
    Conversation.messages (Conversation.self w) = (before ++ x :: after)%list /\
    Conversation.has_id assistant_id x = true /\
    forallb (fun y => negb (Conversation.has_id assistant_id y)) before = true /\
    fst (deleteMessage assistant_id w) = true /\
    Conversation.messages (Conversation.self (snd (deleteMessage assistant_id w)))
      = (before ++ after)%list /\
    parseFull (Conversation.file (snd (deleteMessage assistant_id w)))
      = (before ++ after)%list.
Proof.
  apply (proj2 (deleteMessage_removes_one_record Sample.parse
                  Sample.MessageSchema Sample.stringify_message
                  (create three_records) assistant_id three_records_read_back)).
  eexists. split; [right; right; left; reflexivity|reflexivity].
Defined.

(** C8, the claim as stated, fails: two records remain, and the file is
    one byte longer than their LF-joined serialisation, for it ends with
    LF. *)
Lemma rewritten_file_ends_with_LF :
  let w' := snd (deleteMessage assistant_id (create three_records)) in
  let joined :=
    join (String LF "")
      (map Sample.stringify_message
         (Conversation.messages (Conversation.self w'))) in
  Conversation.file w' = joined ++ String LF "" /\
  Conversation.file w' <> joined.
Proof.
  split; [vm_compute; reflexivity|].
  intros H. apply (f_equal String.length) in H. vm_compute in H.
  discriminate.
Qed.

(** C8 at an input: the cursor after the same deletion. *)
Lemma cursor_after_delete :
  let w' := snd (deleteMessage assistant_id (create three_records)) in
  Conversation.byteOffset (Conversation.self w') =
    String.length (Conversation.file w') /\
  Conversation.loadNewMessages Sample.parse Sample.MessageSchema w' = w'.
Proof.
  pose proof (deleteMessage_rewrites_file Sample.parse Sample.MessageSchema
                Sample.stringify_message (create three_records) assistant_id
                eq_refl) as (_ & _ & H3 & H4 & _).
  split; [exact H3|exact H4].
Defined.

End Instances.

(** * More on the process channel *)

Section ChannelRuns.

Import Schemas Claude Trace.

Variable JSON_parse : string -> Error + json.
Variable JSON_stringify : json -> string.

Local Abbreviation handleLine := (Claude.handleLine JSON_parse).
Local Abbreviation received := (Claude.received JSON_parse).
Local Abbreviation deliveries := (Claude.deliveries JSON_parse).
Local Abbreviation query := (Claude.query JSON_stringify).
Local Abbreviation step := (Claude.step JSON_parse JSON_stringify).
Local Abbreviation run := (Claude.run JSON_parse JSON_stringify).
Local Abbreviation accepted := (Trace.accepted JSON_parse JSON_stringify).
Local Abbreviation chunk := (Trace.chunk JSON_stringify).

Lemma query_self_cases (prompt : string) (w : World) :
  _sessionId (self (snd (query prompt w))) = _sessionId (self w) /\
  emitted (snd (query prompt w)) = emitted w /\
  process (self (snd (query prompt w))) = process (self w).
Proof.
  unfold Claude.query, writeMessage. simpl.
  destruct (pendingQuery (self w)); simpl; [auto|].
  destruct (isRunning _); simpl; auto.
Qed.

(** X1.  After any run, [sessionId] is the [session_id] of the last valid
    event received, [null] when that event has none; queries and the exit
    do not touch it. *)
Theorem sessionId_follows_last_event (ops : list Op) :
  forall w,
  _sessionId (self (run ops w)) =
  last_session_id (deliveries (lines_of ops)) (_sessionId (self w)).
Proof.
  induction ops as [|op ops IH]; intros w; [reflexivity|].
  change (run (op :: ops) w) with (run ops (step w op)). rewrite IH.
  destruct op as [line|prompt|code signal]; simpl.
  - rewrite handleLine_received.
    destruct (received line) as [m|]; [|reflexivity].
    simpl. rewrite handleMessage_sessionId. reflexivity.
  - destruct (query_self_cases prompt w) as (-> & _). reflexivity.
  - unfold onExit. simpl. destruct (pendingQuery (self w)); reflexivity.
Qed.

Lemma message_events_app (l1 l2 : list Event) :
  message_events (l1 ++ l2) = (message_events l1 ++ message_events l2)%list.
Proof. apply flat_map_app. Qed.

Lemma response_events_app (l1 l2 : list Event) :
  response_events (l1 ++ l2) = (response_events l1 ++ response_events l2)%list.
Proof. apply flat_map_app. Qed.

Lemma resolutions_app (l1 l2 : list (nat * Settlement)) :
  resolutions (l1 ++ l2) = (resolutions l1 ++ resolutions l2)%list.
Proof. apply flat_map_app. Qed.

Lemma handleMessage_announced (m : ClaudeStreamMessage) (w : World) :
  message_events (emitted (handleMessage m w)) =
  (message_events (emitted w) ++ [m])%list.
Proof.
  unfold handleMessage. simpl.
  destruct (pendingQuery (self w)); simpl.
  - destruct (type m =? "result"); simpl;
      rewrite ?message_events_app; simpl; rewrite ?app_nil_r; reflexivity.
  - rewrite message_events_app. reflexivity.
Qed.

(** X2.  Every valid event is announced by one [message] event, whether a
    query is pending or not, and in the order received; nothing else is
    announced as a message. *)
Theorem every_event_is_announced (ops : list Op) :
  forall w,
  message_events (emitted (run ops w)) =
  (message_events (emitted w) ++ deliveries (lines_of ops))%list.
Proof.
  induction ops as [|op ops IH]; intros w.
  - simpl. rewrite app_nil_r. reflexivity.
  - change (run (op :: ops) w) with (run ops (step w op)). rewrite IH.
    destruct op as [line|prompt|code signal]; simpl.
    + rewrite handleLine_received.
      destruct (received line) as [m|]; [|reflexivity].
      rewrite handleMessage_announced, <- app_assoc. reflexivity.
    + destruct (query_self_cases prompt w) as (_ & -> & _). reflexivity.
    + unfold onExit. simpl.
      destruct (pendingQuery (self w)); simpl;
        rewrite message_events_app; simpl; rewrite app_nil_r; reflexivity.
Qed.

Lemma query_resolutions (prompt : string) (w : World) :
  resolutions (settled (snd (query prompt w))) = resolutions (settled w).
Proof.
  unfold Claude.query, writeMessage. simpl.
  destruct (pendingQuery (self w)); simpl.
  - rewrite resolutions_app. simpl. apply app_nil_r.
  - destruct (isRunning _); simpl; [reflexivity|].
    rewrite resolutions_app. simpl. apply app_nil_r.
Qed.

Lemma responses_announced_step (w : World) (op : Op) :
  response_events (emitted w) = resolutions (settled w) ->
  response_events (emitted (step w op)) = resolutions (settled (step w op)).
Proof.
  intros H. destruct op as [line|prompt|code signal]; simpl.
  - rewrite handleLine_received. destruct (received line) as [m|]; [|exact H].
    unfold handleMessage. simpl. destruct (pendingQuery (self w)); simpl.
    + destruct (type m =? "result"); simpl.
      * rewrite !response_events_app, resolutions_app, H. simpl.
        rewrite app_nil_r. reflexivity.
      * rewrite response_events_app, H. simpl. apply app_nil_r.
    + rewrite response_events_app, H. simpl. apply app_nil_r.
  - rewrite query_resolutions.
    destruct (query_self_cases prompt w) as (_ & -> & _). exact H.
  - unfold onExit. simpl. destruct (pendingQuery (self w)); simpl;
      rewrite response_events_app, ?resolutions_app, H; simpl;
      rewrite ?app_nil_r; reflexivity.
Qed.

(** X3.  On a channel run from [spawned], the [response] events are the
    values the promises of queries were resolved with, one event for each
    resolution and in the same order. *)
Theorem responses_are_the_resolutions (ops : list Op) :
  response_events (emitted (run ops spawned)) =
  resolutions (settled (run ops spawned)).
Proof.
  assert (G : forall w,
             response_events (emitted w) = resolutions (settled w) ->
             response_events (emitted (run ops w)) =
             resolutions (settled (run ops w))).
  { induction ops as [|op ops IH]; intros w H; [exact H|].
    apply (IH (step w op)), responses_announced_step, H. }
  apply G. reflexivity.
Qed.

Lemma append_blocks_from (blocks : list StreamMessageContent) :
  forall t, append_blocks blocks t = t ++ append_blocks blocks "".
Proof.
  unfold append_blocks.
  induction blocks as [|b blocks IH]; intros t; simpl.
  - rewrite append_nil_r. reflexivity.
  - rewrite IH. symmetry. rewrite IH.
    destruct (block_text b) as [x|]; [|reflexivity].
    destruct ((block_type b =? "text") && negb (x =? "")); [|reflexivity].
    simpl. rewrite append_assoc. reflexivity.
Qed.

(** What [collect] does to the buffer is to add the text of the message. *)
Lemma collect_text (m : ClaudeStreamMessage) (pq : PendingQuery) :
  pending_text (collect m pq) = pending_text pq ++ message_text m.
Proof.
  unfold message_text, collect. simpl.
  destruct (type m =? "assistant"); [|now rewrite append_nil_r].
  destruct (message m) as [payload|]; [|now rewrite append_nil_r].
  destruct (content payload) as [[x|blocks]|]; try now rewrite append_nil_r.
  apply append_blocks_from.
Qed.

Lemma terminal_has_no_text (m : ClaudeStreamMessage) :
  is_terminal m = true -> message_text m = "".
Proof.
  unfold is_terminal, message_text, collect. intros H.
  apply String.eqb_eq in H. rewrite H. reflexivity.
Qed.

Lemma concat_snoc (l : list string) (x : string) :
  String.concat "" (l ++ [x]) = String.concat "" l ++ x.
Proof.
  induction l as [|y l IH]; [reflexivity|].
  change ((y :: l) ++ [x])%list with (y :: (l ++ [x]))%list.
  rewrite !concat_cons, IH, append_assoc. reflexivity.
Qed.

Lemma collect_collecting (m : ClaudeStreamMessage) (pq : PendingQuery) :
  is_terminal m = false -> collecting pq -> collecting (collect m pq).
Proof.
  intros Hm [H1 H2]. split.
  - simpl. rewrite forallb_app, H1. simpl. rewrite Hm. reflexivity.
  - rewrite collect_text, H2. unfold collect. cbn [pending_messages].
    rewrite map_app. cbn [map]. rewrite concat_snoc. reflexivity.
Qed.

Lemma resolved_well_formed (m : ClaudeStreamMessage) (pq : PendingQuery) :
  is_terminal m = true -> collecting pq ->
  well_formed
    {| sessionId := match session_id m with Some s => s | None => "" end;
       messages := (pending_messages pq ++ [m])%list;
       text := pending_text pq;
       result := m |}.
Proof.
  intros Hm [H1 H2]. unfold well_formed. simpl. repeat split.
  - exact Hm.
  - exists (pending_messages pq). auto.
  - rewrite map_app. cbn [map]. rewrite concat_snoc.
    rewrite (terminal_has_no_text m Hm), append_nil_r. exact H2.
Qed.

Lemma well_formed_step (w : World) (op : Op) :
  (forall pq, pendingQuery (self w) = Some pq -> collecting pq) ->
  (forall p r, In (p, Resolved r) (settled w) -> well_formed r) ->
  (forall pq, pendingQuery (self (step w op)) = Some pq -> collecting pq) /\
  (forall p r, In (p, Resolved r) (settled (step w op)) -> well_formed r).
Proof.
  intros Hc Hs. destruct op as [line|prompt|code signal]; simpl.
  - rewrite handleLine_received. destruct (received line) as [m|]; [|auto].
    destruct (pendingQuery (self w)) as [pq|] eqn:Epq.
    + destruct (type m =? "result") eqn:Et.
      * pose proof Et as Et'. apply String.eqb_eq in Et'.
        rewrite (handleMessage_result m w pq Epq Et'). simpl. split.
        -- intros q E. discriminate.
        -- intros p r Hin. apply in_app_or in Hin as [Hin|[Heq|[]]].
           ++ apply (Hs p r Hin).
           ++ injection Heq as _ <-.
              apply resolved_well_formed; [exact Et|apply Hc; reflexivity].
      * rewrite (handleMessage_collect m w pq Epq Et). simpl. split; [|exact Hs].
        intros q E. injection E as <-.
        apply collect_collecting; [exact Et|apply Hc; reflexivity].
    + destruct (handleMessage_idle m w Epq) as (H1 & H2 & _).
      rewrite H1, H2. split; [intros q E; discriminate|exact Hs].
  - unfold Claude.query, writeMessage. simpl.
    destruct (pendingQuery (self w)) as [pq|] eqn:Epq; simpl.
    + split; [rewrite Epq; exact Hc|].
      intros p r Hin. apply in_app_or in Hin as [Hin|[Heq|[]]];
        [apply (Hs p r Hin)|discriminate].
    + destruct (isRunning _); simpl.
      * split; [|exact Hs]. intros q E. injection E as <-.
        split; reflexivity.
      * split; [intros q E; discriminate|].
        intros p r Hin. apply in_app_or in Hin as [Hin|[Heq|[]]];
          [apply (Hs p r Hin)|discriminate].
  - unfold onExit. simpl.
    destruct (pendingQuery (self w)) as [pq|] eqn:Epq; simpl.
    + split; [intros q E; discriminate|].
      intros p r Hin. apply in_app_or in Hin as [Hin|[Heq|[]]];
        [apply (Hs p r Hin)|discriminate].
    + rewrite Epq. split; [intros q E; discriminate|exact Hs].
Qed.

(** X4.  Every response a query resolves with, on a channel run from
    [spawned], has the terminal event as its last message and no other
    terminal event, the concatenated text of its messages as its text, and
    the [session_id] of the terminal event (or the empty string) as its
    session identifier. *)
Theorem responses_are_well_formed
  (ops : list Op) (p : nat) (r : ClaudeResponse) :
  In (p, Resolved r) (settled (run ops spawned)) -> well_formed r.
Proof.
  assert (G : forall w,
             (forall pq, pendingQuery (self w) = Some pq -> collecting pq) ->
             (forall q x, In (q, Resolved x) (settled w) -> well_formed x) ->
             forall q x, In (q, Resolved x) (settled (run ops w)) ->
                         well_formed x).
  { induction ops as [|op ops IH]; intros w Hc Hs; [exact Hs|].
    destruct (well_formed_step w op Hc Hs) as [Hc' Hs'].
    apply (IH (step w op) Hc' Hs'). }
  apply G.
  - intros pq E. discriminate.
  - intros q x [].
Qed.

Lemma step_stdin (w : World) (op : Op) :
  stdin (step w op) =
  (stdin w ++
   map chunk
     match op, pendingQuery (self w) with
     | Query prompt, None => if isRunning (self w) then [prompt] else []
     | _, _ => []
     end)%list.
Proof.
  destruct op as [line|prompt|code signal]; simpl.
  - rewrite handleLine_received, app_nil_r.
    destruct (received line); [apply handleMessage_stdin|reflexivity].
  - unfold Claude.query, writeMessage. simpl.
    destruct (pendingQuery (self w)); simpl; [now rewrite app_nil_r|].
    destruct (isRunning _); simpl; [reflexivity|now rewrite app_nil_r].
  - unfold onExit. simpl. rewrite app_nil_r.
    destruct (pendingQuery (self w)); reflexivity.
Qed.

(** X5.  All that a run writes to the child's input is one chunk for each
    query that found the channel idle and running, in call order: the
    serialised envelope of the prompt followed by LF.  A rejected query,
    an event and the exit write nothing. *)
Theorem stdin_holds_the_accepted_queries (ops : list Op) :
  forall w,
  stdin (run ops w) = (stdin w ++ map chunk (accepted ops w))%list.
Proof.
  induction ops as [|op ops IH]; intros w.
  - simpl. rewrite app_nil_r. reflexivity.
  - change (run (op :: ops) w) with (run ops (step w op)).
    rewrite IH, step_stdin. simpl accepted.
    rewrite map_app, app_assoc. reflexivity.
Qed.

(** X6.  On a channel run from [spawned], every promise [query] has
    returned is settled, but for the one of the pending query when there
    is one; and no promise is settled twice. *)
Theorem every_promise_is_accounted_for (ops : list Op) :
  let w := run ops spawned in
  List.length (settled w) + pending_count w = promises w /\
  NoDup (map fst (settled w)).
Proof.
  split; [|apply settled_once, promises_ok_run, promises_ok_spawned].
  assert (G : forall w,
             List.length (settled w) + pending_count w = promises w ->
             List.length (settled (run ops w)) + pending_count (run ops w) =
             promises (run ops w)).
  { induction ops as [|op ops IH]; intros w H; [exact H|].
    apply (IH (step w op)). unfold pending_count in *.
    destruct op as [line|prompt|code signal]; simpl.
    - rewrite handleLine_received. destruct (received line) as [m|]; [|exact H].
      unfold handleMessage. simpl.
      destruct (pendingQuery (self w)) eqn:E; simpl;
        [destruct (type m =? "result"); simpl|];
        rewrite ?E, ?length_app; simpl; lia.
    - unfold Claude.query, writeMessage. simpl.
      destruct (pendingQuery (self w)) eqn:E; simpl;
        [|destruct (isRunning _); simpl];
        rewrite ?E, ?length_app; simpl; lia.
    - unfold onExit. simpl.
      destruct (pendingQuery (self w)) eqn:E; simpl;
        rewrite ?E, ?length_app; simpl; lia. }
  apply G. reflexivity.
Qed.

(** X7.  An event whose [subtype], [session_id] or [result] is present
    but is not a string fails validation as a whole: the line changes
    nothing, neither the latched session identifier nor the pending query,
    and no event is emitted for it. *)
Theorem ill_typed_key_drops_the_event
  (line key : string) (props : list (string * json)) (v : json) (w : World) :
  JSON_parse line = inr (JObj props) ->
  In key ["subtype"; "session_id"; "result"] ->
  prop key props = Some v ->
  Zod.string v = None ->
  handleLine line w = w.
Proof.
  intros Hp Hk Hv Hs. unfold Claude.handleLine.
  destruct (trim_is_empty line); [reflexivity|]. rewrite Hp.
  assert (E : ClaudeStreamMessageSchema (JObj props) = None).
  { unfold ClaudeStreamMessageSchema.
    destruct (Zod.required Zod.string (prop "type" props)); [|reflexivity].
    simpl. destruct Hk as [<-|[<-|[<-|[]]]]; rewrite ?Hv; simpl;
      rewrite ?Hs; simpl; try reflexivity.
    - destruct (Zod.optional Zod.string (prop "subtype" props)); [|reflexivity].
      simpl.
      destruct (Zod.optional StreamMessagePayloadSchema (prop "message" props));
        reflexivity.
    - destruct (Zod.optional Zod.string (prop "subtype" props)); [|reflexivity].
      simpl.
      destruct (Zod.optional StreamMessagePayloadSchema (prop "message" props));
        [|reflexivity].
      simpl.
      destruct (Zod.optional Zod.string (prop "session_id" props)); reflexivity. }
  rewrite E. reflexivity.
Qed.

End ChannelRuns.

(** * The arguments of the spawned process *)

Section SpawnArguments.

Import Spawn.

Lemma fold_allowedTools (tools : list string) :
  forall acc,
  fold_left (fun a tool => (a ++ ["--allowedTools"; tool])%list) tools acc =
  (acc ++ flat_map (fun tool => ["--allowedTools"; tool]) tools)%list.
Proof.
  induction tools as [|t tools IH]; intros acc; simpl.
  - rewrite app_nil_r. reflexivity.
  - rewrite IH, <- app_assoc. reflexivity.
Qed.

(** [buildArgs] as one concatenation. *)
Lemma buildArgs_parts (o : ClaudeOptions) :
  buildArgs o =
  (base_args
   ++ with_value "--model" (model o)
   ++ flat_map (fun tool => ["--allowedTools"; tool]) (or_nil (allowedTools o))
   ++ with_value "--system-prompt" (systemPrompt o)
   ++ (if is_set (dangerouslySkipPermissions o)
       then ["--dangerously-skip-permissions"] else [])
   ++ with_value "--session-id" (sessionId o)
   ++ (if is_set (resume o)
       then ["--resume"; or_empty (sessionId o)] else [])
   ++ or_nil (args o))%list.
Proof.
  assert (S1 : forall acc flag v,
             match v with
             | Some x => if x =? "" then acc else (acc ++ [flag; x])%list
             | None => acc
             end = (acc ++ with_value flag v)%list).
  { intros acc flag [x|]; simpl; [destruct (x =? "")|];
      rewrite ?app_nil_r; reflexivity. }
  assert (S2 : forall acc tools,
             match tools with
             | Some ts =>
                 fold_left (fun a tool => (a ++ ["--allowedTools"; tool])%list)
                   ts acc
             | None => acc
             end =
             (acc ++ flat_map (fun tool => ["--allowedTools"; tool])
                      (or_nil tools))%list).
  { intros acc [ts|]; simpl; [apply fold_allowedTools|now rewrite app_nil_r]. }
  assert (S3 : forall (acc : list string) (b : option bool) l,
             match b with Some true => (acc ++ l)%list | _ => acc end =
             (acc ++ (if is_set b then l else []))%list).
  { intros acc [[|]|] l; simpl; rewrite ?app_nil_r; reflexivity. }
  assert (S4 : forall (acc : list string) extra,
             match extra with Some e => (acc ++ e)%list | None => acc end =
             (acc ++ or_nil extra)%list).
  { intros acc [e|]; simpl; rewrite ?app_nil_r; reflexivity. }
  unfold buildArgs. cbv zeta.
  rewrite (S1 _ "--model"), S2, (S1 _ "--system-prompt"), S3,
    (S1 _ "--session-id"), S3, S4.
  fold (or_empty (sessionId o)).
  rewrite <- !app_assoc. reflexivity.
Qed.

Lemma with_value_length (flag : string) (v : option string) :
  List.length (with_value flag v) = count_if (given v) 2.
Proof.
  destruct v as [x|]; [|reflexivity]. simpl. destruct (x =? ""); reflexivity.
Qed.

Lemma flag_pairs_length (tools : list string) :
  List.length (flat_map (fun tool => ["--allowedTools"; tool]) tools) =
  2 * List.length tools.
Proof. induction tools as [|t tools IH]; simpl; [reflexivity|lia]. Qed.

(** X8.  The arguments always start with the six flags of the streaming
    mode and end with the pass-through [args]; between them each option
    that is set adds its flag (two arguments, one for the permission
    bypass, two for each allowed tool), so the number of arguments is six
    plus those. *)
Theorem buildArgs_shape (o : ClaudeOptions) :
  (exists middle,
     buildArgs o = (base_args ++ middle ++ or_nil (args o))%list) /\
  List.length (buildArgs o) =
    6 + count_if (given (model o)) 2 + 2 * size (allowedTools o)
    + count_if (given (systemPrompt o)) 2
    + count_if (is_set (dangerouslySkipPermissions o)) 1
    + count_if (given (sessionId o)) 2
    + count_if (is_set (resume o)) 2
    + size (args o).
Proof.
  rewrite buildArgs_parts. split.
  - exists (with_value "--model" (model o)
            ++ flat_map (fun tool => ["--allowedTools"; tool])
                 (or_nil (allowedTools o))
            ++ with_value "--system-prompt" (systemPrompt o)
            ++ (if is_set (dangerouslySkipPermissions o)
                then ["--dangerously-skip-permissions"] else [])
            ++ with_value "--session-id" (sessionId o)
            ++ (if is_set (resume o)
                then ["--resume"; or_empty (sessionId o)] else []))%list.
    rewrite <- !app_assoc. reflexivity.
  - rewrite !length_app, !with_value_length, flag_pairs_length.
    unfold size, or_nil.
    destruct (allowedTools o), (args o),
      (is_set (dangerouslySkipPermissions o)), (is_set (resume o));
      simpl; lia.
Qed.

(** X9.  An option that is an empty string, [false] or an empty list
    counts as absent: the arguments are those of the options with every
    such key removed. *)
Theorem buildArgs_ignores_falsy_options (o : ClaudeOptions) :
  buildArgs (effective o) = buildArgs o.
Proof.
  rewrite !buildArgs_parts.
  destruct o as [d m tools sp skip sid res extra]. unfold effective. simpl.
  assert (W : forall flag v,
             with_value flag
               match v with
               | Some x => if x =? "" then None else Some x
               | None => None
               end = with_value flag v).
  { intros flag [x|]; [|reflexivity]. simpl.
    destruct (x =? "") eqn:E; simpl; [reflexivity|]. rewrite E. reflexivity. }
  rewrite !W.
  assert (S : forall b : option bool,
             is_set match b with Some true => Some true | _ => None end =
             is_set b) by (intros [[|]|]; reflexivity).
  rewrite !S.
  assert (N : forall l : option (list string),
             or_nil match l with Some [] => None | _ => l end = or_nil l)
    by (intros [[|x l]|]; reflexivity).
  rewrite !N.
  assert (E : or_empty
                match sid with
                | Some x => if x =? "" then None else Some x
                | None => None
                end = or_empty sid).
  { destruct sid as [x|]; [|reflexivity]. simpl.
    destruct (String.eqb_spec x ""); [subst; reflexivity|reflexivity]. }
  rewrite E. reflexivity.
Qed.

(** X10.  With [resume] set, [--resume] is followed by the configured
    session identifier, which [--session-id] has passed just before, or by
    an empty argument when no identifier is configured; only the
    pass-through arguments come after. *)
Theorem buildArgs_resume (o : ClaudeOptions) :
  resume o = Some true ->
  exists before,
    buildArgs o =
    (before
     ++ with_value "--session-id" (sessionId o)
     ++ ["--resume"; or_empty (sessionId o)]
     ++ or_nil (args o))%list.
Proof.
  intros H. rewrite buildArgs_parts, H. simpl is_set. cbv iota.
  exists (base_args
          ++ with_value "--model" (model o)
          ++ flat_map (fun tool => ["--allowedTools"; tool])
               (or_nil (allowedTools o))
          ++ with_value "--system-prompt" (systemPrompt o)
          ++ (if is_set (dangerouslySkipPermissions o)
              then ["--dangerously-skip-permissions"] else []))%list.
  rewrite <- !app_assoc. reflexivity.
Qed.

End SpawnArguments.

(** * More on the conversation log *)

Section LogHistories.

Import Conversation Lookup.

Variable JSON_parse : string -> Error + json.
Variable MessageSchema_safeParse : json -> option Message.
Variable JSON_stringify : Message -> string.

Local Abbreviation load_line :=
  (Conversation.load_line JSON_parse MessageSchema_safeParse).
Local Abbreviation load := (Conversation.load JSON_parse MessageSchema_safeParse).
Local Abbreviation create :=
  (Conversation.create JSON_parse MessageSchema_safeParse).
Local Abbreviation loadNewMessages :=
  (Conversation.loadNewMessages JSON_parse MessageSchema_safeParse).
Local Abbreviation deleteMessage := (Conversation.deleteMessage JSON_stringify).
Local Abbreviation parseFull :=
  (Conversation.parseFull JSON_parse MessageSchema_safeParse).
Local Abbreviation decode :=
  (Conversation.decode JSON_parse MessageSchema_safeParse).
Local Abbreviation records :=
  (Conversation.records JSON_parse MessageSchema_safeParse).
Local Abbreviation parse_errors := (Conversation.parse_errors JSON_parse).
Local Abbreviation act :=
  (Lookup.act JSON_parse MessageSchema_safeParse JSON_stringify).
Local Abbreviation perform :=
  (Lookup.perform JSON_parse MessageSchema_safeParse JSON_stringify).

Lemma first_turn_app (l l' : list Message) :
  first_turn (l ++ l') =
  match first_turn l with Some t => Some t | None => first_turn l' end.
Proof.
  induction l as [|[t|t|i o] l IH]; simpl; auto.
Qed.

Lemma load_line_latched (w : World) (line : string) :
  latched (self w) -> latched (self (load_line w line)).
Proof.
  unfold latched, Conversation.load_line, Conversation.processObject.
  destruct w as [[msgs off sid side flag] f evs]. simpl.
  intros [H1 H2].
  destruct (JSON_parse line) as [e|obj]; simpl; [auto|].
  destruct (MessageSchema_safeParse obj) as [data|]; simpl; [|auto].
  destruct sid as [s|], data as [t|t|i o], flag; simpl;
    rewrite first_turn_app;
    destruct (first_turn msgs); simpl in *; try discriminate; auto.
Qed.

Lemma load_lines_latched (ls : list string) :
  forall w, latched (self w) -> latched (self (fold_left load_line ls w)).
Proof.
  induction ls as [|l ls IH]; intros w H; [exact H|].
  apply IH, load_line_latched, H.
Qed.

Lemma load_latched (w : World) : latched (self (load w)).
Proof.
  unfold Conversation.load, Conversation.JsonlFile_load.
  set (w1 := with_self _ w).
  pose proof (load_lines_latched
                (readline (createReadStream (file w1) 0)) w1) as H.
  simpl. apply H. split; reflexivity.
Qed.

Lemma loadNewMessages_latched (w : World) :
  latched (self w) -> latched (self (loadNewMessages w)).
Proof.
  intros H. unfold Conversation.loadNewMessages.
  destruct (Nat.leb _ _); [exact H|].
  unfold Conversation.JsonlFile_load. simpl.
  set (w1 := with_self _ w).
  apply (load_lines_latched _ w1). exact H.
Qed.

(** X11.  After a full parse, and then through appends, refreshes,
    [clear] and reloads, [sessionId] and [isSidechain] are those of the
    first user or assistant record in memory, and [null] while there is
    none; snapshots are passed over. *)
Theorem session_is_that_of_first_turn (content : string) (acts : list Action) :
  forallb (fun a => negb (is_delete a)) acts = true ->
  latched (self (perform acts (create content))).
Proof.
  assert (G : forall w, latched (self w) ->
                        forallb (fun a => negb (is_delete a)) acts = true ->
                        latched (self (perform acts w))).
  { induction acts as [|a acts IH]; intros w H Ha; [exact H|].
    simpl in Ha. apply andb_true_iff in Ha as [Ha Hacts].
    apply (IH (act w a)); [|exact Hacts].
    destruct a as [bytes| |id| |]; simpl; try discriminate.
    - exact H.
    - apply loadNewMessages_latched, H.
    - split; reflexivity.
    - apply load_latched. }
  intros Ha. apply G; [apply load_latched|exact Ha].
Qed.

Lemma load_line_keeps_session (w : World) (line : string) (s : string) :
  _sessionId (self w) = Some s ->
  _sessionId (self (load_line w line)) = Some s /\
  _isSidechain (self (load_line w line)) = _isSidechain (self w).
Proof.
  unfold Conversation.load_line, Conversation.processObject.
  destruct w as [[msgs off sid side flag] f evs]. simpl. intros ->.
  destruct (JSON_parse line) as [e|obj]; simpl; [auto|].
  destruct (MessageSchema_safeParse obj) as [data|]; simpl; [|auto].
  destruct data, flag; simpl; auto.
Qed.

Lemma load_lines_keep_session (ls : list string) (s : string) :
  forall w,
  _sessionId (self w) = Some s ->
  _sessionId (self (fold_left load_line ls w)) = Some s /\
  _isSidechain (self (fold_left load_line ls w)) = _isSidechain (self w).
Proof.
  induction ls as [|l ls IH]; intros w Es; [auto|]. simpl.
  destruct (load_line_keeps_session w l s Es) as [H1 H2].
  destruct (IH _ H1) as [G1 G2]. rewrite G1, G2, H2. auto.
Qed.

(** X12.  Once a session identifier is latched, no append, refresh or
    [deleteMessage] changes it or [isSidechain], not even the deletion of
    the record it came from; only [clear] and a reload do. *)
Theorem latched_session_is_kept
  (w : World) (acts : list Action) (s : string) :
  forallb (fun a => negb (is_reset a)) acts = true ->
  _sessionId (self w) = Some s ->
  _sessionId (self (perform acts w)) = Some s /\
  _isSidechain (self (perform acts w)) = _isSidechain (self w).
Proof.
  revert w. induction acts as [|a acts IH]; intros w Ha Es; [auto|].
  simpl in Ha. apply andb_true_iff in Ha as [Ha Hacts].
  assert (H : _sessionId (self (act w a)) = Some s /\
              _isSidechain (self (act w a)) = _isSidechain (self w)).
  { destruct a as [bytes| |id| |]; simpl; try discriminate.
    - auto.
    - unfold Conversation.loadNewMessages.
      destruct (Nat.leb _ _); [auto|].
      unfold Conversation.JsonlFile_load. simpl.
      set (w1 := with_self _ w).
      apply (load_lines_keep_session _ s w1). exact Es.
    - unfold Conversation.deleteMessage.
      destruct (findIndex _ _); simpl; auto. }
  destruct H as [H1 H2]. destruct (IH (act w a) Hacts H1) as [G1 G2].
  change (perform (a :: acts) w) with (perform acts (act w a)).
  rewrite G1, G2, H2. auto.
Qed.

Lemma log_message_events_app (l1 l2 : list Event) :
  message_events (l1 ++ l2) = (message_events l1 ++ message_events l2)%list.
Proof. apply flat_map_app. Qed.

Lemma parse_errors_are_no_messages (ls : list string) :
  message_events (parse_errors ls) = [].
Proof.
  induction ls as [|l ls IH]; simpl; [reflexivity|].
  destruct (JSON_parse l); simpl; exact IH.
Qed.

(** With [emitNewMessages] on, a pass announces each record it adds. *)
Lemma load_lines_announce (ls : list string) :
  forall w,
  emitNewMessages (self w) = true ->
  message_events (emitted (fold_left load_line ls w)) =
  (message_events (emitted w) ++ records ls)%list.
Proof.
  induction ls as [|l ls IH]; intros w Hon; simpl.
  - rewrite app_nil_r. reflexivity.
  - rewrite IH.
    + unfold Conversation.load_line, Conversation.processObject,
        Conversation.decode.
      destruct w as [[msgs off sid side flag] f evs]. simpl in *. subst flag.
      destruct (JSON_parse l) as [e|obj]; simpl.
      * rewrite log_message_events_app. simpl. rewrite app_nil_r. reflexivity.
      * destruct (MessageSchema_safeParse obj) as [data|]; simpl; [|reflexivity].
        destruct sid, data; simpl; rewrite log_message_events_app; simpl;
          rewrite <- app_assoc; reflexivity.
    + destruct (load_line_frame JSON_parse MessageSchema_safeParse w l)
        as (_ & _ & _ & ->). exact Hon.
Qed.

(** X13.  While the file only grows and is refreshed, the records in
    memory are those of the first full parse followed by the records
    announced by [message] events, in the order announced: the full parse
    announces none, and a refresh announces each record it adds. *)
Theorem refresh_announces_what_it_adds (content : string) (acts : list Action) :
  forallb keeps_history acts = true ->
  let w := perform acts (create content) in
  messages (self w) = (parseFull content ++ message_events (emitted w))%list.
Proof.
  assert (G : forall w,
             emitNewMessages (self w) = false ->
             messages (self w) =
               (parseFull content ++ message_events (emitted w))%list ->
             forallb keeps_history acts = true ->
             messages (self (perform acts w)) =
               (parseFull content ++ message_events (emitted (perform acts w)))%list).
  { induction acts as [|a acts IH]; intros w Hoff Hm Ha; [exact Hm|].
    simpl in Ha. apply andb_true_iff in Ha as [Ha Hacts].
    destruct a as [bytes| |id| |]; try discriminate;
      change (perform (?x :: acts) w) with (perform acts (act w x)).
    - apply IH; assumption.
    - simpl act. unfold Conversation.loadNewMessages.
      destruct (Nat.leb _ _); [apply IH; assumption|].
      unfold Conversation.JsonlFile_load. simpl.
      set (w1 := with_self (set_emitNewMessages true) w).
      set (ls := readline (createReadStream (file w) (byteOffset (self w)))).
      destruct (load_lines_frame JSON_parse MessageSchema_safeParse ls w1)
        as (H1 & _ & _ & _).
      pose proof (load_lines_announce ls w1 eq_refl) as H2.
      apply IH; [reflexivity| |exact Hacts].
      simpl. rewrite H1, H2. simpl. rewrite Hm, <- app_assoc. reflexivity. }
  intros Ha w. apply G; [| |exact Ha].
  - destruct (load_lines_frame JSON_parse MessageSchema_safeParse
                (readline (createReadStream content 0))
                (with_self (fun c => set_session None None (set_messages [] c))
                   (constructed content))) as (_ & _ & _ & H).
    exact H.
  - destruct (create_spec JSON_parse MessageSchema_safeParse content)
      as (_ & _ & _ & He).
    rewrite He, parse_errors_are_no_messages, app_nil_r. reflexivity.
Qed.

Lemma act_cursor (w : World) (a : Action) :
  byteOffset (self w) <= String.length (file w) ->
  byteOffset (self (act w a)) <= String.length (file (act w a)) /\
  match a with
  | Grow _ => True
  | Delete id =>
      fst (deleteMessage id w) = true ->
      byteOffset (self (act w a)) = String.length (file (act w a))
  | _ => byteOffset (self (act w a)) = String.length (file (act w a))
  end.
Proof.
  intros H. destruct a as [bytes| |id| |]; simpl.
  - rewrite length_append. split; [lia|exact I].
  - pose proof (loadNewMessages_spec JSON_parse MessageSchema_safeParse w) as Hs.
    destruct (Nat.leb _ _) eqn:El.
    + rewrite Hs. apply Nat.leb_le in El. split; lia.
    + destruct Hs as (_ & -> & ->). split; [lia|reflexivity].
  - unfold Conversation.deleteMessage. destruct (findIndex _ _); simpl.
    + split; [lia|reflexivity].
    + split; [exact H|discriminate].
  - split; [lia|reflexivity].
  - destruct (load_lines_frame JSON_parse MessageSchema_safeParse
                (readline (createReadStream (file w) 0))
                (with_self (fun c => set_session None None (set_messages [] c)) w))
      as (_ & Hf & _ & _).
    unfold Conversation.load, Conversation.JsonlFile_load, getFileSize.
    simpl in *. split; [lia|reflexivity].
Qed.

(** X14.  Through any history that starts with a full parse, the cursor
    is never past the end of the file; and a refresh, a [deleteMessage]
    that finds its record, [clear] and a reload each leave it exactly at
    the end. *)
Theorem cursor_stays_within_file (content : string) (acts : list Action) :
  let w := perform acts (create content) in
  byteOffset (self w) <= String.length (file w) /\
  (forall a,
     match a with
     | Grow _ => True
     | Delete id =>
         fst (deleteMessage id w) = true ->
         byteOffset (self (act w a)) = String.length (file (act w a))
     | _ => byteOffset (self (act w a)) = String.length (file (act w a))
     end).
Proof.
  assert (G : forall w,
             byteOffset (self w) <= String.length (file w) ->
             byteOffset (self (perform acts w)) <=
             String.length (file (perform acts w))).
  { induction acts as [|a acts IH]; intros w H; [exact H|].
    apply (IH (act w a)), act_cursor, H. }
  assert (H0 : byteOffset (self (create content)) <=
               String.length (file (create content))).
  { destruct (create_spec JSON_parse MessageSchema_safeParse content)
      as (_ & -> & -> & _). lia. }
  intros w. split; [apply G, H0|].
  intros a. apply act_cursor, G, H0.
Qed.

(** What a full parse leaves in the object. *)
Lemma load_self (w : World) :
  messages (self (load w)) = records (readline (file w)) /\
  byteOffset (self (load w)) = String.length (file w) /\
  emitNewMessages (self (load w)) = emitNewMessages (self w) /\
  file (load w) = file w.
Proof.
  unfold Conversation.load, Conversation.JsonlFile_load, getFileSize. simpl.
  rewrite createReadStream_0.
  set (w1 := with_self _ w).
  destruct (load_lines_frame JSON_parse MessageSchema_safeParse
              (readline (file w)) w1) as (H1 & H2 & H3 & H4).
  rewrite H1, H2, H4. auto.
Qed.

Lemma conversation_eq (c1 c2 : Conversation) :
  messages c1 = messages c2 -> byteOffset c1 = byteOffset c2 ->
  emitNewMessages c1 = emitNewMessages c2 ->
  latched c1 -> latched c2 -> c1 = c2.
Proof.
  destruct c1, c2. unfold latched. simpl.
  intros -> -> -> [-> ->] [-> ->]. reflexivity.
Qed.

(** X15.  A reload forgets what is in memory: whatever was deleted, lost
    or latched before, [load] leaves the object as [create] leaves a new
    one over the file as it is now. *)
Theorem reload_is_a_fresh_parse (w : World) :
  emitNewMessages (self w) = false ->
  self (load w) = self (create (file w)) /\ file (load w) = file w.
Proof.
  intros Hoff.
  destruct (load_self w) as (H1 & H2 & H3 & H4).
  destruct (load_self (constructed (file w))) as (G1 & G2 & G3 & G4).
  split; [|exact H4].
  apply conversation_eq.
  - rewrite H1. symmetry. exact G1.
  - rewrite H2. symmetry. exact G2.
  - rewrite H3, Hoff. symmetry. exact G3.
  - apply load_latched.
  - apply load_latched.
Qed.

Lemma load_line_agree (w1 w2 : World) (line : string) :
  self w1 = self w2 -> file w1 = file w2 ->
  self (load_line w1 line) = self (load_line w2 line) /\
  file (load_line w1 line) = file (load_line w2 line).
Proof.
  destruct w1 as [c1 f1 e1], w2 as [c2 f2 e2]. simpl. intros <- <-.
  unfold Conversation.load_line, Conversation.processObject.
  destruct (JSON_parse line) as [e|obj]; simpl; [auto|].
  destruct (MessageSchema_safeParse obj) as [data|]; simpl; [|auto].
  destruct c1 as [msgs off sid side flag]. simpl.
  destruct sid, data, flag; simpl; auto.
Qed.

Lemma load_lines_agree (ls : list string) :
  forall w1 w2,
  self w1 = self w2 -> file w1 = file w2 ->
  self (fold_left load_line ls w1) = self (fold_left load_line ls w2) /\
  file (fold_left load_line ls w1) = file (fold_left load_line ls w2).
Proof.
  induction ls as [|l ls IH]; intros w1 w2 Hs Hf; [auto|]. simpl.
  destruct (load_line_agree w1 w2 l Hs Hf) as [H1 H2]. apply IH; assumption.
Qed.

(** What an action does to the object and to the file does not depend on
    the events emitted before. *)
Lemma act_agree (w1 w2 : World) (a : Action) :
  self w1 = self w2 -> file w1 = file w2 ->
  self (act w1 a) = self (act w2 a) /\ file (act w1 a) = file (act w2 a).
Proof.
  intros Hs Hf. destruct a as [bytes| |id| |]; simpl.
  - rewrite Hs, Hf. auto.
  - unfold Conversation.loadNewMessages, getFileSize. rewrite Hs, Hf.
    destruct (Nat.leb _ _); [auto|].
    unfold Conversation.JsonlFile_load. simpl. rewrite Hs, Hf.
    destruct (load_lines_agree
                (readline (createReadStream (file w2) (byteOffset (self w2))))
                (with_self (set_emitNewMessages true) w1)
                (with_self (set_emitNewMessages true) w2)) as [H1 H2];
      simpl; [now rewrite Hs|exact Hf|].
    rewrite H1, H2. auto.
  - unfold Conversation.deleteMessage. rewrite Hs.
    destruct (findIndex _ _); simpl; rewrite ?Hs; auto.
  - rewrite Hs. auto.
  - unfold Conversation.load, Conversation.JsonlFile_load, getFileSize.
    simpl. rewrite Hf.
    destruct (load_lines_agree
                (readline (createReadStream (file w2) 0))
                (with_self (fun c => set_session None None (set_messages [] c)) w1)
                (with_self (fun c => set_session None None (set_messages [] c)) w2))
      as [H1 H2]; simpl; [now rewrite Hs|exact Hf|].
    rewrite H1, H2. auto.
Qed.

(** X16.  After [clear] the conversation is a new one over an empty file:
    through any further history its fields and its file are those of a
    conversation created over an empty file and taken through the same
    history. *)
Theorem clear_starts_over (w : World) (acts : list Action) :
  emitNewMessages (self w) = false ->
  self (perform acts (clear w)) = self (perform acts (create "")) /\
  file (perform acts (clear w)) = file (perform acts (create "")).
Proof.
  intros Hoff.
  assert (G : forall w1 w2,
             self w1 = self w2 -> file w1 = file w2 ->
             self (perform acts w1) = self (perform acts w2) /\
             file (perform acts w1) = file (perform acts w2)).
  { induction acts as [|a acts IH]; intros w1 w2 Hs Hf; [auto|].
    destruct (act_agree w1 w2 a Hs Hf) as [H1 H2].
    apply (IH _ _ H1 H2). }
  apply G; [|reflexivity].
  destruct w as [[msgs off sid side flag] f evs]. simpl in Hoff. subst flag.
  reflexivity.
Qed.

Lemma find_none_findIndex {A} (p : A -> bool) (l : list A) :
  find p l = None -> findIndex p l = None.
Proof.
  induction l as [|x l IH]; simpl; [reflexivity|].
  destruct (p x); [discriminate|]. intros H. rewrite (IH H). reflexivity.
Qed.

Lemma find_some_findIndex {A} (p : A -> bool) (l : list A) (x : A) :
  find p l = Some x ->
  exists i before after,
    findIndex p l = Some i /\ l = (before ++ x :: after)%list /\
    forallb (fun y => negb (p y)) before = true /\
    splice1 i l = (before ++ after)%list.
Proof.
  induction l as [|y l IH]; simpl; [discriminate|].
  destruct (p y) eqn:Ey.
  - intros H. injection H as <-. exists 0, [], l. simpl. auto.
  - intros H. destruct (IH H) as (i & b & a & Hi & -> & Hb & Hs).
    exists (S i), (y :: b), a. rewrite Hi. simpl. rewrite Ey, Hb, Hs. auto.
Qed.

Lemma find_skips {A} (p : A -> bool) (before after : list A) :
  forallb (fun y => negb (p y)) before = true ->
  find p (before ++ after) = find p after.
Proof.
  induction before as [|y before IH]; simpl; [reflexivity|].
  intros H. apply andb_true_iff in H as [Hy Hb].
  apply negb_true_iff in Hy. rewrite Hy. apply IH, Hb.
Qed.

Lemma find_without {A} (p : A -> bool) (before after : list A) (x : A) :
  p x = false ->
  find p (before ++ x :: after) = find p (before ++ after).
Proof.
  intros Hx. induction before as [|y before IH]; simpl.
  - rewrite Hx. reflexivity.
  - destruct (p y); [reflexivity|exact IH].
Qed.

(** X17.  [deleteMessage] removes the record [getMessage] returns for the
    identifier, and returns [false] without any change when [getMessage]
    returns [undefined].  When other records have the identifier too, as a
    snapshot and the turn it belongs to may, they stay, and [getMessage]
    then returns the first of them. *)
Theorem deleteMessage_removes_what_getMessage_finds (w : World) (id : string) :
  match getMessage id (self w) with
  | None => deleteMessage id w = (false, w)
  | Some x =>
      exists before after,
        messages (self w) = (before ++ x :: after)%list /\
        forallb (fun y => negb (has_id id y)) before = true /\
        fst (deleteMessage id w) = true /\
        messages (self (snd (deleteMessage id w))) = (before ++ after)%list /\
        getMessage id (self (snd (deleteMessage id w))) =
          find (has_id id) after
  end.
Proof.
  unfold getMessage. destruct (find _ _) as [x|] eqn:Ef.
  - destruct (find_some_findIndex _ _ _ Ef) as (i & b & a & Hi & Hl & Hb & Hs).
    exists b, a. unfold Conversation.deleteMessage. rewrite Hi. simpl.
    rewrite Hs. repeat split; try assumption. apply find_skips, Hb.
  - unfold Conversation.deleteMessage.
    rewrite (find_none_findIndex _ _ Ef). reflexivity.
Qed.

Lemma has_other_id (id id' : string) (x : Message) :
  has_id id x = true -> id <> id' -> has_id id' x = false.
Proof.
  destruct x as [t|t|i o]; simpl; intros H Hne;
    apply String.eqb_eq in H; subst; apply String.eqb_neq; exact Hne.
Qed.

(** X18.  Deleting the record of one identifier changes what
    [getMessage] returns for no other identifier. *)
Theorem deleteMessage_keeps_other_lookups (w : World) (id id' : string) :
  id <> id' ->
  getMessage id' (self (snd (deleteMessage id w))) = getMessage id' (self w).
Proof.
  intros Hne. unfold getMessage, Conversation.deleteMessage.
  destruct (findIndex (has_id id) (messages (self w))) as [i|] eqn:Ei;
    [|reflexivity].
  destruct (findIndex_some _ _ _ Ei) as (b & x & a & Hl & Hx & _ & Hs).
  simpl. rewrite Hs, Hl. symmetry.
  apply find_without, (has_other_id id id' x Hx Hne).
Qed.

(** X19.  [deleteMessage] rewrites the file from the records in memory
    alone.  Bytes the tool has appended since the last refresh are
    replaced with the rest and the next refresh does not see them: append,
    delete, refresh ends in the same world as the delete alone. *)
Theorem delete_drops_unread_bytes (w : World) (id bytes : string) :
  fst (deleteMessage id w) = true ->
  perform [Grow bytes; Delete id; Notify] w = snd (deleteMessage id w).
Proof.
  unfold Lookup.perform. simpl. unfold Conversation.deleteMessage. simpl.
  destruct (findIndex (has_id id) (messages (self w))) as [i|];
    [|discriminate].
  intros _. simpl.
  set (w' := with_self _ _).
  pose proof (loadNewMessages_spec JSON_parse MessageSchema_safeParse w') as Hs.
  assert (E : byteOffset (self w') = String.length (file w')) by reflexivity.
  rewrite E, Nat.leb_refl in Hs. exact Hs.
Qed.

Lemma readline_from_rest (l : string) :
  forall buffer,
  no_breaks l = true ->
  readline_from false buffer l =
  match buffer ++ l with EmptyString => [] | x => [x] end.
Proof.
  induction l as [|c l IH]; intros buffer Hn.
  - simpl. rewrite append_nil_r. destruct buffer; reflexivity.
  - simpl in Hn. apply andb_true_iff in Hn as [Hc Hl].
    apply andb_true_iff in Hc as [H1 H2]. apply negb_true_iff in H1, H2.
    simpl. rewrite H1, H2, (IH _ Hl), append_assoc. reflexivity.
Qed.

Lemma readline_join (ls : list string) :
  Forall (fun l => no_breaks l = true) ls ->
  last ls "" <> "" ->
  readline (join (String LF "") ls) = ls.
Proof.
  induction 1 as [|l ls Hl Hls IH]; intros Hlast; [reflexivity|].
  destruct ls as [|y ls].
  - simpl in *. unfold readline. rewrite (readline_from_rest l "" Hl). simpl.
    destruct l; [congruence|reflexivity].
  - change (join (String LF "") (l :: y :: ls))
      with (l ++ String LF (join (String LF "") (y :: ls))).
    unfold readline in *. rewrite (readline_from_line l "" _ Hl). simpl append.
    rewrite IH; [reflexivity|exact Hlast].
Qed.

(** X20.  The last line of a file needs no LF: a file of lines joined by
    LF whose last line is not empty gives the same records with and
    without a final LF, those of its lines. *)
Theorem final_newline_is_optional (ls : list string) :
  Forall (fun l => no_breaks l = true) ls ->
  last ls "" <> "" ->
  parseFull (join (String LF "") ls) = records ls /\
  parseFull (join (String LF "") ls ++ String LF "") = records ls.
Proof.
  intros Hn Hlast. rewrite !parseFull_records. split.
  - rewrite (readline_join ls Hn Hlast). reflexivity.
  - destruct ls as [|l ls]; [simpl in Hlast; congruence|].
    rewrite join_terminated, readline_lines; [reflexivity|exact Hn].
Qed.

End LogHistories.

(** * The loop of [JsonlFile.load] *)

Section GenericLoad.

Variable S : Type.
Variable JSON_parse : string -> Error + json.
Variable processObject : json -> S -> bool * S.
Variable emit_parseError : string -> Error -> S -> S.

Local Abbreviation loop :=
  (JsonlFile.loop S JSON_parse processObject emit_parseError).


End GenericLoad.

Section ConversationLoad.

Import Conversation.

Variable JSON_parse : string -> Error + json.
Variable MessageSchema_safeParse : json -> option Message.

(** [Conversation.processObject] returns nothing, so under it the loop of
    [JsonlFile.load] never breaks: every line of the file, from the offset
    on, is handed over or reported. *)
Lemma conversation_load_reads_every_line (content : string) (start : nat)
  (w : World) :
  JsonlFile.loop World JSON_parse
    (fun obj v => (false, processObject MessageSchema_safeParse obj v))
    (fun line e v => emit (EvParseError line e) v)
    (readline (createReadStream content start)) w =
  (false,
   fold_left (load_line JSON_parse MessageSchema_safeParse)
     (readline (createReadStream content start)) w).
Proof.
  generalize (readline (createReadStream content start)) as ls.
  intros ls. revert w. induction ls as [|l ls IH]; intros w; [reflexivity|].
  simpl. unfold load_line at 2.
  destruct (JSON_parse l) as [e|obj]; apply IH.
Qed.

End ConversationLoad.

(** * Sessions and projects *)

Section SessionProperties.

Import Conversation Lookup Sessions.

Variable JSON_parse : string -> Error + json.
Variable MessageSchema_safeParse : json -> option Message.

Local Abbreviation open := (Sessions.open JSON_parse MessageSchema_safeParse).
Local Abbreviation loadSidechains :=
  (Sessions.loadSidechains JSON_parse MessageSchema_safeParse).
Local Abbreviation getById :=
  (Sessions.getById JSON_parse MessageSchema_safeParse).
Local Abbreviation loadSessions :=
  (Sessions.loadSessions JSON_parse MessageSchema_safeParse).
Local Abbreviation parseFull :=
  (Conversation.parseFull JSON_parse MessageSchema_safeParse).

Lemma open_latched (content : string) : latched (self (open content)).
Proof. apply load_latched. Qed.

Lemma parseFull_open (content : string) :
  parseFull content = messages (self (open content)).
Proof. reflexivity. Qed.

Local Opaque Sessions.open.

(** X22.  A session created over a freshly parsed log takes its
    identifier and its metadata from one record, the first user or
    assistant record of the log; over a log without such a record the
    identifier and all metadata are [null]. *)
Theorem session_metadata_from_first_turn (content dir : string) :
  let s := Sessions.create (open content) dir in
  match first_turn (parseFull content) with
  | Some t =>
      id s = Some (sessionId t) /\
      _projectPath s = key "cwd" t /\ _version s = key "version" t /\
      _startedAt s = key "timestamp" t /\ _gitBranch s = key "gitBranch" t
  | None =>
      id s = None /\ _projectPath s = None /\ _version s = None /\
      _startedAt s = None /\ _gitBranch s = None
  end.
Proof.
  destruct (open_latched content) as [H _]. rewrite parseFull_open.
  unfold Sessions.create, loadMetadata, id, getMessages, Sessions.new. simpl.
  destruct (first_turn (messages (self (open content)))) as [t|] eqn:E;
    simpl; rewrite H, ?E; simpl; auto 10.
Qed.

(** X23.  After [loadSidechains] on a session whose sidechains were not
    loaded, [getSidechains] returns, without throwing, those of the agent
    logs whose session identifier is the session's own; and it returns
    none when the session has no identifier or an empty one, although a
    log without turns has none either. *)
Theorem sidechains_share_the_session_id
  (agent_files : list string) (s : Session) :
  _sidechains s = None ->
  exists l,
    getSidechains (loadSidechains agent_files s) = inr l /\
    (forall c,
       In c l <->
       In c (map open agent_files) /\
       exists sid, sid <> "" /\ id s = Some sid /\
                   _sessionId (self c) = Some sid).
Proof.
  intros Hn. unfold Sessions.loadSidechains, getSidechains. rewrite Hn.
  destruct (id s) as [sid|] eqn:Ei.
  - destruct (String.eqb_spec sid "") as [->|Hne]; simpl.
    + exists []. split; [reflexivity|]. intros c. split; [intros []|].
      intros (_ & x & Hx & Hs & _). congruence.
    + eexists. split; [reflexivity|]. intros c. rewrite filter_In.
      unfold has_session. split.
      * intros [Hin Hc]. split; [exact Hin|]. exists sid.
        destruct (_sessionId (self c)) as [x|]; [|discriminate].
        apply String.eqb_eq in Hc. subst. auto.
      * intros (Hin & x & _ & Hs & Hc). split; [exact Hin|].
        rewrite Hc. injection Hs as ->. apply String.eqb_refl.
  - exists []. split; [reflexivity|]. intros c. split; [intros []|].
    intros (_ & x & _ & Hs & _). discriminate.
Qed.

(** X24.  The sidechains are loaded once: a second [loadSidechains]
    changes nothing, whatever the directory holds by then. *)
Theorem sidechains_are_loaded_once
  (agent_files later_files : list string) (s : Session) :
  loadSidechains later_files (loadSidechains agent_files s) =
  loadSidechains agent_files s.
Proof.
  assert (H : exists l, _sidechains (loadSidechains agent_files s) = Some l).
  { unfold Sessions.loadSidechains.
    destruct (_sidechains s) eqn:E; [rewrite E; eauto|].
    destruct (id s) as [sid|]; [destruct (sid =? "")|]; simpl; eauto. }
  destruct H as [l H].
  unfold Sessions.loadSidechains at 1. rewrite H. reflexivity.
Qed.

(** X25.  [Session.getById] returns the session of the first log whose
    session identifier is the one asked for, and [null] when no log has
    it; a log without turns is never returned. *)
Theorem getById_finds_the_first_match
  (sid : string) (main_files : list string) (dir : string) :
  match getById sid main_files dir with
  | Some s =>
      id s = Some sid /\
      exists before content after,
        main_files = (before ++ content :: after)%list /\
        s = Sessions.create (open content) dir /\
        forall c, In c before -> _sessionId (self (open c)) <> Some sid
  | None =>
      forall c, In c main_files -> _sessionId (self (open c)) <> Some sid
  end.
Proof.
  induction main_files as [|entry more IH]; simpl.
  - intros c [].
  - destruct (has_session sid (open entry)) eqn:Eh.
    + unfold has_session in Eh.
      destruct (_sessionId (self (open entry))) as [x|] eqn:Ex;
        [|discriminate].
      apply String.eqb_eq in Eh. subst x. split.
      * unfold Sessions.create, loadMetadata, id. simpl.
        destruct (first_turn _); simpl; exact Ex.
      * exists [], entry, more. repeat split. intros c [].
    + assert (Hne : _sessionId (self (open entry)) <> Some sid).
      { unfold has_session in Eh. intros E. rewrite E in Eh.
        rewrite String.eqb_refl in Eh. discriminate. }
      destruct (getById sid more dir) as [s|].
      * destruct IH as (Hid & b & c & a & -> & Hs & Hb). split; [exact Hid|].
        exists (entry :: b), c, a. repeat split; [exact Hs|].
        intros x [<-|Hx]; [exact Hne|apply Hb, Hx].
      * intros c [<-|Hc]; [exact Hne|apply IH, Hc].
Qed.

(** X26.  [Project.loadSessions] lists, in directory order, the logs whose
    first user or assistant record is not a sidechain record and the logs
    that have no such record at all, the latter with a [null] identifier;
    the sessions it returns carry no metadata. *)
Theorem loadSessions_lists_main_logs (main_files : list string) (dir : string) :
  map _conversation (loadSessions main_files dir) =
    filter
      (fun c =>
         match first_turn (messages (self c)) with
         | Some t => negb (isSidechain t)
         | None => true
         end)
      (map open main_files) /\
  Forall
    (fun s =>
       _projectPath s = None /\ _version s = None /\ _startedAt s = None /\
       _gitBranch s = None /\
       (first_turn (messages (self (_conversation s))) = None -> id s = None))
    (loadSessions main_files dir).
Proof.
  unfold Sessions.loadSessions. split.
  - rewrite map_map. simpl. rewrite map_id.
    induction main_files as [|entry more IH]; [reflexivity|].
    simpl. rewrite <- IH.
    destruct (open_latched entry) as [_ H]. unfold is_main. rewrite H.
    destruct (first_turn (messages (self (open entry)))) as [t|]; simpl;
      [destruct (isSidechain t)|]; reflexivity.
  - apply Forall_forall. intros s Hs. apply in_map_iff in Hs as (c & <- & Hc).
    apply filter_In in Hc as [Hc _]. apply in_map_iff in Hc as (x & <- & _).
    simpl. repeat split. intros E. unfold id. simpl.
    destruct (open_latched x) as [H _]. rewrite H, E. reflexivity.
Qed.

End SessionProperties.

(** * Filtering and watching *)

Section FilterProperties.

Import Conversation Filter.

Variable Date_of : option string -> Date.

Local Abbreviation keeps := (Filter.keeps Date_of).

Lemma filter_filter {A} (p q : A -> bool) (l : list A) :
  List.filter p (List.filter q l) = List.filter (fun x => q x && p x) l.
Proof.
  induction l as [|x l IH]; simpl; [reflexivity|].
  destruct (q x); simpl; [destruct (p x)|]; rewrite IH; reflexivity.
Qed.

(** X27.  The criteria of [filter] are a conjunction: filtering by type
    and by dates is filtering by dates what filtering by type returns.
    An empty criteria object, or an empty-string type, returns every
    record; a type returns records of that type only. *)
Theorem filter_criteria_combine (criteria : FilterCriteria) (c : Conversation) :
  Filter.filter Date_of criteria c =
    List.filter
      (keeps {| type := None; startDate := startDate criteria;
                endDate := endDate criteria |})
      (Filter.filter Date_of
         {| type := type criteria; startDate := None; endDate := None |} c) /\
  Filter.filter Date_of
    {| type := None; startDate := None; endDate := None |} c = messages c /\
  Filter.filter Date_of
    {| type := Some ""; startDate := None; endDate := None |} c = messages c /\
  (forall t, type criteria = Some t -> t <> "" ->
             Forall (fun m => type_of m = t) (Filter.filter Date_of criteria c)).
Proof.
  unfold Filter.filter. repeat split.
  - rewrite filter_filter. apply filter_ext. intros m.
    unfold Filter.keeps. simpl.
    destruct (match type criteria with
              | Some t => negb (t =? "") && negb (type_of m =? t)
              | None => false
              end); reflexivity.
  - induction (messages c) as [|m l IH]; simpl; [reflexivity|].
    rewrite IH. reflexivity.
  - induction (messages c) as [|m l IH]; simpl; [reflexivity|].
    rewrite IH. reflexivity.
  - intros t Ht Hne. apply Forall_forall. intros m Hm.
    apply filter_In in Hm as [_ Hk]. unfold Filter.keeps in Hk.
    rewrite Ht in Hk. apply String.eqb_neq in Hne. rewrite Hne in Hk.
    simpl in Hk. destruct (type_of m =? t) eqn:E; [|discriminate].
    apply String.eqb_eq, E.
Qed.

End FilterProperties.

Section WatchProperties.

Import Conversation Watch.

Variable JSON_parse : string -> Error + json.
Variable MessageSchema_safeParse : json -> option Message.

Local Abbreviation react := (Watch.react JSON_parse MessageSchema_safeParse).
Local Abbreviation history :=
  (Watch.history JSON_parse MessageSchema_safeParse).

Lemma subscribe_tidy (w : Watched) : tidy w -> tidy (subscribe w).
Proof.
  unfold tidy, subscribe. intros (Hn & Hc & Hw).
  destruct (watcher w) as [h|] eqn:E; simpl; [rewrite E; auto|].
  repeat split; auto.
  - intros h Hh. specialize (Hc h Hh). lia.
  - intros Hin. specialize (Hc _ Hin). lia.
  - intros h' Hlt Hne. apply Hw. lia.
Qed.

Lemma unsubscribe_tidy (w : Watched) : tidy w -> tidy (unsubscribe false w).
Proof.
  unfold tidy, unsubscribe. intros (Hn & Hc & Hw).
  destruct (watcher w) as [h|] eqn:E; simpl; [|rewrite E; auto].
  destruct Hw as (Hlt & Hnin & Hrest). repeat split.
  - apply NoDup_app; [exact Hn|repeat constructor; intros []|].
    intros a Ha [<-|[]]. exact (Hnin Ha).
  - intros x Hx. apply in_app_or in Hx as [Hx|[<-|[]]]; auto.
  - intros h' Hh'. apply in_or_app.
    destruct (Nat.eq_dec h' h) as [->|Hne]; [right; left; reflexivity|].
    left. apply Hrest; assumption.
Qed.

Lemma live_is_current (w : Watched) (h : nat) :
  tidy w -> (live h w = true <-> watcher w = Some h).
Proof.
  unfold tidy, live. intros (Hn & Hc & Hw). split.
  - intros H. apply andb_true_iff in H as [Hlt Hnc].
    apply Nat.ltb_lt in Hlt. apply negb_true_iff in Hnc.
    assert (Hnin : ~ In h (closed w)).
    { intros Hin. assert (existsb (Nat.eqb h) (closed w) = true)
        by (apply existsb_exists; exists h; split;
            [exact Hin|apply Nat.eqb_refl]).
      congruence. }
    destruct (watcher w) as [x|].
    + destruct Hw as (_ & _ & Hrest).
      destruct (Nat.eq_dec h x) as [->|Hne]; [reflexivity|].
      exfalso. apply Hnin, Hrest; assumption.
    + exfalso. apply Hnin, Hw, Hlt.
  - intros E. rewrite E in Hw. destruct Hw as (Hlt & Hnin & _).
    apply andb_true_iff. split; [apply Nat.ltb_lt, Hlt|].
    apply negb_true_iff. destruct (existsb _ _) eqn:Ex; [|reflexivity].
    apply existsb_exists in Ex as (x & Hx & Heq).
    apply Nat.eqb_eq in Heq. subst x. contradiction.
Qed.

(** X28.  As long as no [close] throws, however [subscribe] and
    [unsubscribe] are called and whatever the watchers report, the only
    watcher that still delivers events is the one held in the field, so
    one at most, and no watcher is closed twice. *)
Theorem one_watcher_at_most
  (signals : list Signal) (path content : string) (create : string -> World) :
  forallb closes_cleanly signals = true ->
  let w := history signals (watching path content create) in
  (forall h, live h w = true <-> watcher w = Some h) /\ NoDup (closed w).
Proof.
  assert (G : forall w, tidy w -> forallb closes_cleanly signals = true ->
                        tidy (history signals w)).
  { induction signals as [|s signals IH]; intros w Hw Hs; [exact Hw|].
    simpl in Hs. apply andb_true_iff in Hs as [Hs Hrest].
    apply (IH (react w s)); [|exact Hrest].
    destruct s as [|b|h t|h b|bytes]; simpl.
    - apply subscribe_tidy, Hw.
    - simpl in Hs. apply negb_true_iff in Hs. subst b.
      apply unsubscribe_tidy, Hw.
    - unfold on_event. destruct (_ && _); exact Hw.
    - simpl in Hs. apply negb_true_iff in Hs. subst b.
      unfold on_error. destruct (live h w); [|exact Hw].
      apply unsubscribe_tidy. exact Hw.
    - exact Hw. }
  intros Hs w.
  assert (Hw : tidy w).
  { apply G; [|exact Hs]. unfold tidy, watching. simpl.
    repeat split; [constructor|intros h []|]. intros h' Hlt. lia. }
  split; [intros h; apply live_is_current, Hw|apply Hw].
Qed.

End WatchProperties.

(** * The further theorems at sample inputs *)

Section MoreInstances.

Import Examples MoreExamples.

Local Abbreviation perform :=
  (Lookup.perform Sample.parse Sample.MessageSchema Sample.stringify_message).
Local Abbreviation create :=
  (Conversation.create Sample.parse Sample.MessageSchema).
Local Abbreviation deleteMessage :=
  (Conversation.deleteMessage Sample.stringify_message).

Lemma plain_response_is_well_formed : Trace.well_formed plain_response.
Proof.
  apply (responses_are_well_formed Sample.parse Sample.stringify plain_run 0).
  left. reflexivity.
Defined.

Lemma null_session_id_is_dropped :
  Claude.handleLine Sample.parse (Sample.stringify system_null_id)
    Claude.spawned = Claude.spawned.
Proof.
  apply (ill_typed_key_drops_the_event Sample.parse
           (Sample.stringify system_null_id) "session_id"
           [("type", JStr "system"); ("session_id", JNull)] JNull);
    [reflexivity|right; left; reflexivity|reflexivity|reflexivity].
Defined.

Lemma resume_without_session_id :
  exists before,
    Spawn.buildArgs resume_only = (before ++ [] ++ ["--resume"; ""] ++ [])%list.
Proof. exact (buildArgs_resume resume_only eq_refl). Defined.

Lemma session_latched_past_snapshot :
  Lookup.latched
    (Conversation.self (perform grow_and_notify (create snapshot_first))).
Proof.
  exact (session_is_that_of_first_turn Sample.parse Sample.MessageSchema
           Sample.stringify_message snapshot_first grow_and_notify eq_refl).
Defined.

Lemma session_kept_after_deleting_its_record :
  Conversation._sessionId
    (Conversation.self (perform [Lookup.Delete user_id] three)) =
    Some session_id /\
  Conversation._isSidechain
    (Conversation.self (perform [Lookup.Delete user_id] three)) =
    Conversation._isSidechain (Conversation.self three).
Proof.
  exact (latched_session_is_kept Sample.parse Sample.MessageSchema
           Sample.stringify_message three [Lookup.Delete user_id] session_id
           eq_refl eq_refl).
Defined.

Lemma appended_turn_is_announced :
  let w := perform grow_and_notify (create (user_line ++ newline)) in
  Conversation.messages (Conversation.self w) =
  (Conversation.parseFull Sample.parse Sample.MessageSchema
     (user_line ++ newline)
   ++ Lookup.message_events (Conversation.emitted w))%list.
Proof.
  exact (refresh_announces_what_it_adds Sample.parse Sample.MessageSchema
           Sample.stringify_message (user_line ++ newline) grow_and_notify
           eq_refl).
Defined.

Lemma cursor_after_growth :
  let w := perform [Lookup.Grow (assistant_line ++ newline)]
             (create (user_line ++ newline)) in
  Conversation.byteOffset (Conversation.self w) <=
  String.length (Conversation.file w).
Proof.
  exact (proj1 (cursor_stays_within_file Sample.parse Sample.MessageSchema
                  Sample.stringify_message (user_line ++ newline)
                  [Lookup.Grow (assistant_line ++ newline)])).
Defined.

Lemma reload_after_delete :
  let w := snd (deleteMessage assistant_id three) in
  Conversation.self (Conversation.load Sample.parse Sample.MessageSchema w) =
  Conversation.self (create (Conversation.file w)).
Proof.
  exact (proj1 (reload_is_a_fresh_parse Sample.parse Sample.MessageSchema
                  (snd (deleteMessage assistant_id three)) eq_refl)).
Defined.

Lemma clear_then_grow :
  Conversation.self (perform grow_and_notify (Conversation.clear three)) =
  Conversation.self (perform grow_and_notify (create "")).
Proof.
  exact (proj1 (clear_starts_over Sample.parse Sample.MessageSchema
                  Sample.stringify_message three grow_and_notify eq_refl)).
Defined.

Lemma user_turn_found_after_other_delete :
  Lookup.getMessage user_id
    (Conversation.self (snd (deleteMessage assistant_id three))) =
  Lookup.getMessage user_id (Conversation.self three).
Proof.
  apply (deleteMessage_keeps_other_lookups Sample.stringify_message three
           assistant_id user_id).
  discriminate.
Defined.

Lemma appended_turn_lost_by_delete :
  perform [Lookup.Grow (user_line ++ newline); Lookup.Delete assistant_id;
           Lookup.Notify] three =
  snd (deleteMessage assistant_id three).
Proof.
  exact (delete_drops_unread_bytes Sample.parse Sample.MessageSchema
           Sample.stringify_message three assistant_id (user_line ++ newline)
           eq_refl).
Defined.

Lemma two_lines_without_final_newline :
  Conversation.parseFull Sample.parse Sample.MessageSchema
    (join (String LF "") [user_line; assistant_line]) =
  Conversation.records Sample.parse Sample.MessageSchema
    [user_line; assistant_line].
Proof.
  apply (final_newline_is_optional Sample.parse Sample.MessageSchema
           [user_line; assistant_line]).
  - repeat constructor.
  - vm_compute. discriminate.
Defined.

Lemma sidechains_of_a_session :
  exists l,
    Sessions.getSidechains
      (Sessions.loadSidechains Sample.parse Sample.MessageSchema
         [three_records; snapshot_line]
         (Sessions.create three "dir")) = inr l /\
    (forall c,
       In c l <->
       In c (map (Sessions.open Sample.parse Sample.MessageSchema)
               [three_records; snapshot_line]) /\
       exists sid, sid <> "" /\
                   Sessions.id (Sessions.create three "dir") = Some sid /\
                   Conversation._sessionId (Conversation.self c) = Some sid).
Proof.
  exact (sidechains_share_the_session_id Sample.parse Sample.MessageSchema
           [three_records; snapshot_line] (Sessions.create three "dir")
           eq_refl).
Defined.

Lemma subscribing_twice_opens_one_watcher :
  let w := Watch.history Sample.parse Sample.MessageSchema watch_signals
             (Watch.watching "log.jsonl" three_records create) in
  (forall h, Watch.live h w = true <-> Watch.watcher w = Some h) /\
  NoDup (Watch.closed w).
Proof.
  exact (one_watcher_at_most Sample.parse Sample.MessageSchema watch_signals
           "log.jsonl" three_records create eq_refl).
Defined.

End MoreInstances.
